(** * dbs/helper_functions.py: retry with exponential backoff, ticker scraping

    A shallow embedding of [retry_with_backoff], [get_ndaq_tickers] and
    [get_ndaq_tickers_fallback], and the properties of them that the
    specification states.

    Modelling conventions.
    - Python numbers ([base_delay], [max_delay], the computed [delay], the
      values of [random.random()]) are exact rationals [Q]; [max_retries] and
      [attempt] are integers [Z]. Rationals do not overflow: the
      [OverflowError] that Python raises when an integer beyond the floats
      is converted is outside the model, and statements about how far a run
      gets are made for policies [within_python_range], where it cannot
      occur.
    - The ambient effects of the function ([func()], [random.random()],
      [logger.warning], [logger.error], [print], [time.sleep]) append to an
      explicit trace of events carried in a [World].
    - A Python call either returns a value or raises: [pyresult]. *)

From Equations Require Import Equations.
From Stdlib Require Import ZArith QArith Qminmax Qabs List String Ascii Bool.
From Stdlib Require Import Lia Lqa DecimalString OrdersEx Sorted.
Import ListNotations.

Local Open Scope string_scope.
Local Open Scope list_scope.

(** ** Python values, exceptions and results *)

Inductive value : Type :=
| VNone
| VInt (n : Z)
| VBool (b : bool)
| VStr (s : string).

(** An exception object: the names of its class and of the bases of that
    class (its method resolution order), and the text [str(e)]. *)
Record exn : Type := mkExn { exn_mro : list string; exn_str : string }.

(** [isinstance(e, classes)] for a tuple [classes] of exception classes:
    this is the test an [except classes as e] clause performs. *)
Definition isinstance (e : exn) (classes : list string) : bool :=
  existsb (fun c => existsb (String.eqb c) (exn_mro e)) classes.

Inductive pyresult (A : Type) : Type :=
| Return (v : A)
| Raise (e : exn).
Arguments Return {A} v.
Arguments Raise {A} e.

(** What [time.sleep] raises on a negative argument. *)
Definition ValueError_sleep : exn :=
  mkExn ["ValueError"; "Exception"; "BaseException"; "object"]
        "sleep length must be non-negative".

(** ** Text formatting used by the f-strings *)

Definition newline : string := String (ascii_of_nat 10) EmptyString.

(** [str(n)] for an integer. *)
Definition str_int (n : Z) : string := NilZero.string_of_int (Z.to_int n).

(** Round a non-negative rational to the nearest integer, ties to even. *)
Definition round_half_even (q : Q) : Z :=
  let a := Qnum q in
  let b := Zpos (Qden q) in
  let fl := (a / b)%Z in
  let r := (a mod b)%Z in
  match (2 * r ?= b)%Z with
  | Lt => fl
  | Gt => (fl + 1)%Z
  | Eq => if Z.even fl then fl else (fl + 1)%Z
  end.

Definition two_digits (n : Z) : string :=
  if (n <? 10)%Z then "0" ++ str_int n else str_int n.

(** [f"{q:.2f}"]. *)
Definition format_2f (q : Q) : string :=
  let m := round_half_even (Qabs q * 100) in
  (if Qle_bool 0 q then "" else "-")
    ++ str_int (m / 100) ++ "." ++ two_digits (m mod 100).

(** ** The world: what a run of the code does to its environment *)

Inductive level : Type := WARNING | ERROR.

Record Logger : Type := mkLogger { logger_name : string }.

Inductive event : Type :=
| Call (i : nat)                         (* the i-th invocation of func() *)
| Random (r : Q)                         (* random.random() returned r *)
| Log (lg : Logger) (lvl : level) (msg : string)
                                         (* lg.warning(msg) / lg.error(msg) *)
| Print (msg : string)                   (* print(msg) *)
| Sleep (d : Q).                         (* time.sleep(d) returned *)

Record World : Type := mkWorld {
  calls : nat;          (* invocations of func() so far *)
  draws : nat;          (* values taken from the random source so far *)
  trace : list event    (* everything done so far, oldest first *)
}.

Definition init_world : World := mkWorld 0 0 [].

Definition emit (ev : event) (w : World) : World :=
  mkWorld (calls w) (draws w) (trace w ++ [ev]).

(** A callable: its [__name__], and what its i-th invocation in a run does
    (the operation may have state of its own, so successive calls differ). *)
Record callable : Type := mkCallable {
  name : string;
  call : nat -> pyresult value
}.

(** [func()] *)
Definition invoke (func : callable) (w : World) : pyresult value * World :=
  (call func (calls w),
   mkWorld (S (calls w)) (draws w) (trace w ++ [Call (calls w)])).

(** [random.random()], drawing from the source [rng] *)
Definition random_random (rng : nat -> Q) (w : World) : Q * World :=
  (rng (draws w),
   mkWorld (calls w) (S (draws w)) (trace w ++ [Random (rng (draws w))])).

(** [time.sleep(d)]: raises [ValueError] when [d] is negative. *)
Definition time_sleep (d : Q) (w : World) : pyresult unit * World :=
  if Qle_bool 0 d then (Return tt, emit (Sleep d) w)
  else (Raise ValueError_sleep, w).

(** [if logger: logger.warning(msg) else: print(msg)] and the same with
    [logger.error]. *)
Definition log_or_print (logger : option Logger) (lvl : level) (msg : string)
    (w : World) : World :=
  match logger with
  | Some lg => emit (Log lg lvl msg) w
  | None => emit (Print msg) w
  end.

(** Projections of a trace. *)
Definition sleeps (tr : list event) : list Q :=
  flat_map (fun ev => match ev with Sleep d => [d] | _ => [] end) tr.

Definition log_records (tr : list event) : list (level * string) :=
  flat_map (fun ev => match ev with Log _ lvl m => [(lvl, m)] | _ => [] end) tr.

Definition printed (tr : list event) : list string :=
  flat_map (fun ev => match ev with Print m => [m] | _ => [] end) tr.

Definition randoms (tr : list event) : list Q :=
  flat_map (fun ev => match ev with Random r => [r] | _ => [] end) tr.

Definition invocations (tr : list event) : list nat :=
  flat_map (fun ev => match ev with Call i => [i] | _ => [] end) tr.

(** The message texts a trace produced, whatever sink they went to. *)
Definition messages (tr : list event) : list string :=
  flat_map (fun ev => match ev with
                      | Log _ _ m => [m]
                      | Print m => [m]
                      | _ => []
                      end) tr.

(** ** retry_with_backoff *)

Definition inspect {A : Type} (a : A) : {b : A | a = b} := exist _ a eq_refl.

(** What the body of the [except] clause does to the loop. *)
Inductive handled : Type :=
| Reraise (e : exn)      (* the handler raised: the exception leaves the function *)
| NextAttempt.           (* the handler fell through: back to the loop test *)

Section RetryWithBackoff.

Variable rng : nat -> Q.
Variable func : callable.
Variable logger : option Logger.
Variable max_retries : Z.
Variables base_delay max_delay : Q.
Variable exceptions : list string.
Variable jitter : bool.

(** [func_name = func.__name__] *)
Definition func_name : string := name func.

Definition msg_max_retries (e : exn) : string :=
  "Max retries reached." ++ newline ++
  "                  Function '" ++ func_name ++
  "' failed with exception: " ++ exn_str e.

Definition msg_attempt (attempt : Z) (e : exn) (delay : Q) : string :=
  "Attempt " ++ str_int (attempt + 1) ++ " for function '" ++ func_name ++ "'"
  ++ newline ++
  "                  failed with " ++ exn_str e ++ ". Retrying in "
  ++ format_2f delay ++ " seconds...".

(** [min(max_delay, base_delay * (2**attempt))], on exact numbers (for a
    float [base_delay] Python can compute the product only while
    [attempt < 1024]). *)
Definition raw_delay (attempt : Z) : Q :=
  Qmin max_delay (base_delay * inject_Z (2 ^ attempt)).

(** [delay * (0.5 + random.random() / 2)] *)
Definition jittered (delay r : Q) : Q := delay * ((1 # 2) + r / 2).

(** The body of [except exceptions as e:], for delays that Python can
    compute and format; the one error it models in the handler is the
    [ValueError] of [time.sleep]. *)
Definition except_body (attempt : Z) (e : exn) (w : World)
    : handled * World :=
  if (attempt =? max_retries)%Z then
    let msg := msg_max_retries e in
    let w1 := log_or_print logger ERROR msg w in
    (Reraise e, w1)
  else
    let delay := raw_delay attempt in
    let '(delay, w1) :=
      if jitter then
        let '(r, w') := random_random rng w in (jittered delay r, w')
      else (delay, w) in
    let msg := msg_attempt attempt e delay in
    let w2 := log_or_print logger WARNING msg w1 in
    match time_sleep delay w2 with
    | (Return _, w3) => (NextAttempt, w3)
    | (Raise e', w3) => (Reraise e', w3)
    end.

(** One pass through the [try] statement at the given [attempt]: either
    the function is left ([inl]) or the loop goes round again ([inr]). *)
Definition try_once (attempt : Z) (w : World)
    : (pyresult value * World) + World :=
  match invoke func w with
  | (Return v, w1) => inl (Return v, w1)
  | (Raise e, w1) =>
      if isinstance e exceptions then
        match except_body attempt e w1 with
        | (Reraise e', w2) => inl (Raise e', w2)
        | (NextAttempt, w2) => inr w2
        end
      else inl (Raise e, w1)
  end.

(** The [while attempt <= max_retries] loop. Leaving the loop by its test
    reaches the end of the function, which returns [None]. *)
Equations? retry_loop (attempt : Z) (w : World) : pyresult value * World
  by wf (Z.to_nat (max_retries + 1 - attempt)) lt :=
retry_loop attempt w with inspect (attempt <=? max_retries)%Z := {
  | exist _ true Hle with inspect (try_once attempt w) := {
      | exist _ (inl out) _ := out
      | exist _ (inr w') _ := retry_loop (attempt + 1) w' }
  | exist _ false _ := (Return VNone, w) }.
Proof. apply Z.leb_le in Hle. lia. Qed.

Definition retry_with_backoff : pyresult value * World :=
  retry_loop 0 init_world.


(** *** The shape of a run

    What a failed attempt that is retried leaves in the trace, as a
    function of its index: in a run that starts from [init_world] the
    attempt number, the number of the call and, with jitter, the number of
    the random draw all coincide. *)

Definition log_event (lvl : level) (msg : string) : event :=
  match logger with
  | Some lg => Log lg lvl msg
  | None => Print msg
  end.

Definition delay_at (i : nat) : Q :=
  if jitter then jittered (raw_delay (Z.of_nat i)) (rng i)
  else raw_delay (Z.of_nat i).

Definition retry_round (err : nat -> exn) (i : nat) : list event :=
  [Call i] ++ (if jitter then [Random (rng i)] else []) ++
  [log_event WARNING (msg_attempt (Z.of_nat i) (err i) (delay_at i));
   Sleep (delay_at i)].

Definition retries_trace (err : nat -> exn) (k : nat) : list event :=
  flat_map (retry_round err) (seq 0 k).

(** The world after [k] failed attempts that were all retried. *)
Definition world_after (err : nat -> exn) (k : nat) : World :=
  mkWorld k (if jitter then k else 0%nat) (retries_trace err k).

End RetryWithBackoff.

(** A run was rejected before any attempt: it raised, and [func] was never
    invoked. *)
Definition rejected_before_any_attempt (out : pyresult value * World) : Prop :=
  (exists e, fst out = Raise e) /\ calls (snd out) = 0%nat.

(** A configuration that the specification's policy would refuse. *)
Definition invalid_config (max_retries : Z) (base_delay max_delay : Q) : Prop :=
  (max_retries < 0)%Z \/ base_delay <= 0 \/ max_delay <= 0.

(** The same event with the logger taken away: what [print] receives in
    place of [logger.warning] and [logger.error]. *)
Definition unlogged (ev : event) : event :=
  match ev with
  | Log _ _ msg => Print msg
  | _ => ev
  end.

Definition unlog_world (w : World) : World :=
  mkWorld (calls w) (draws w) (map unlogged (trace w)).

(** ** get_ndaq_tickers *)

Definition is_upper_char (c : ascii) : bool :=
  ((65 <=? nat_of_ascii c) && (nat_of_ascii c <=? 90))%nat.

Definition is_lower_char (c : ascii) : bool :=
  ((97 <=? nat_of_ascii c) && (nat_of_ascii c <=? 122))%nat.

(** [text.isupper()] on ASCII text: there is a cased character and no cased
    character is lowercase. *)
Definition isupper (text : string) : bool :=
  existsb is_upper_char (list_ascii_of_string text)
  && forallb (fun c => negb (is_lower_char c)) (list_ascii_of_string text).

(** [text.isalpha()] on ASCII text: non-empty and letters only. *)
Definition isalpha (text : string) : bool :=
  negb (text =? "")
  && forallb (fun c => is_upper_char c || is_lower_char c)
             (list_ascii_of_string text).

Definition not_tickers : list string :=
  ["TICKER"; "SYMBOL"; "COMPANY"; "NAME"; "WEIGHT"].

(** The two nested [if]s on a cell's text. *)
Definition keep_cell (text : string) : bool :=
  (negb (text =? "") && (String.length text <=? 5)%nat
   && isupper text && isalpha text)
  && negb (existsb (String.eqb text) not_tickers).

(** A parsed page: the [wikitable] tables, each a list of rows, each a list
    of cell texts ([cell.get_text(strip=True)]). *)
Definition row := list string.
Definition table := list row.

(** The three nested [for] loops that fill [tickers]. *)
Definition collect_tickers (tables : list table) : list string :=
  flat_map (fun t : table => flat_map (fun r : row => filter keep_cell r) t)
           tables.

(** [sorted(list(set(tickers)))]: the distinct elements in increasing order
    (strings compare character by character, by character code). *)
Fixpoint insert_uniq (x : string) (l : list string) : list string :=
  match l with
  | [] => [x]
  | y :: l' =>
      match String_as_OT.compare x y with
      | Lt => x :: l
      | Eq => l
      | Gt => y :: insert_uniq x l'
      end
  end.

Definition sorted_set (l : list string) : list string :=
  fold_right insert_uniq [] l.

Definition get_ndaq_tickers_fallback : list string :=
  [ "AAPL"; "MSFT"; "GOOGL"; "GOOG"; "AMZN"; "NVDA"; "META"; "TSLA"; "NFLX"; "ADBE";
    "CRM"; "PEP"; "COST"; "AVGO"; "CSCO"; "TMUS"; "INTC"; "AMD"; "QCOM"; "INTU";
    "HON"; "ISRG"; "GILD"; "MDLZ"; "ADP"; "PYPL"; "REGN"; "VRTX"; "ABNB"; "KLAC";
    "SNPS"; "PANW"; "CDNS"; "MU"; "ORLY"; "MNST"; "KDP"; "LRCX"; "ASML"; "CHTR";
    "MAR"; "MELI"; "FTNT"; "CTAS"; "ODFL"; "PAYX"; "ROST"; "IDXX"; "BIIB"; "FAST";
    "VRSK"; "WDAY"; "DXCM"; "CPRT"; "XEL"; "PCAR"; "ALGN"; "SIRI"; "MRVL"; "ZS";
    "LCID"; "JD"; "PDD"; "BIDU"; "NTES"; "TCOM"; "WBA"; "EA"; "UBER";
    "LYFT"; "DASH"; "RIVN"; "PLTR"; "SNOW"; "CRWD"; "OKTA"; "TEAM"; "SPOT";
    "PINS"; "SNAP"; "BYND"; "PTON"; "DOCU"; "RBLX"; "ZM" ].

Definition str_len (l : list string) : string :=
  str_int (Z.of_nat (List.length l)).

(** [get_ndaq_tickers], given what fetching and parsing the page did
    ([requests.get], [raise_for_status], [BeautifulSoup], [find_all],
    [get_text]): the tables of the page, or an exception. The result is
    paired with the lines printed. *)
Definition get_ndaq_tickers (page : pyresult (list table))
    : pyresult (list string) * list string :=
  match page with
  | Return tables =>
      let tickers := collect_tickers tables in
      let tickers := sorted_set tickers in
      if ((80 <=? List.length tickers) && (List.length tickers <=? 120))%nat
      then
        (Return tickers,
         [("Successfully scraped " ++ str_len tickers
             ++ " NASDAQ-100 tickers from Wikipedia")%string])
      else
        (Return get_ndaq_tickers_fallback,
         [("Warning: Got " ++ str_len tickers
             ++ " tickers, expected ~100. Using fallback list.")%string])
  | Raise e =>
      if isinstance e ["Exception"] then
        (Return get_ndaq_tickers_fallback,
         [("Error scraping NASDAQ-100 tickers: " ++ exn_str e)%string;
          "Using fallback hardcoded list..."])
      else (Raise e, [])
  end.

(** ** The range in which the model is the code

    The model computes with exact rationals, which never overflow. Python
    raises [OverflowError] inside the handler when an integer too large for
    a float has to be converted: [2**attempt] times a float [base_delay]
    from [attempt = 1024] on, or an integer delay beyond the floats when it
    is multiplied by the jitter factor or formatted with [.2f]; and
    [time.sleep] refuses a delay that its clock cannot hold. None of this
    can happen when delays are computed for attempts below 1024 only, that
    is [max_retries <= 1024], and [base_delay] and [max_delay] are not
    below [- sleep_limit] and [max_delay] is not above [sleep_limit],
    since every delay is at most [max_delay] and the first delay is the
    smaller of the two parameters. Statements about how far a run gets
    are made for such policies. *)
Definition sleep_limit : Q := 4294967.

Definition within_python_range
    (max_retries : Z) (base_delay max_delay : Q) : Prop :=
  (max_retries <= 1024)%Z /\
  - sleep_limit <= base_delay /\
  - sleep_limit <= max_delay <= sleep_limit.

(** ** How a run can end *)

(** The exception of the i-th call of [func], when that call raises. *)
Definition raised (func : callable) (i : nat) : exn :=
  match call func i with
  | Raise e => e
  | Return _ => mkExn [] ""
  end.

Section RunEnds.

Variable rng : nat -> Q.
Variable func : callable.
Variable logger : option Logger.
Variable max_retries : Z.
Variables base_delay max_delay : Q.
Variable exceptions : list string.
Variable jitter : bool.

(** The first [k] calls raised an exception that the [except] clause matches,
    and [time.sleep] accepted the delay computed after each. *)
Definition retried_until (k : nat) : Prop :=
  forall i, (i < k)%nat ->
    call func i = Raise (raised func i) /\
    isinstance (raised func i) exceptions = true /\
    0 <= delay_at rng base_delay max_delay jitter i.

(** The five ways out of [retry_with_backoff], each with the world it
    leaves: the loop test fails on entry; the [return] in the [try]; an
    exception that the [except] clause does not match; the bare [raise] at
    the last attempt; [time.sleep] refusing a negative delay. *)
Inductive run_ends : pyresult value * World -> Prop :=
| ends_not_entered :
    (max_retries < 0)%Z ->
    run_ends (Return VNone, init_world)
| ends_returned (k : nat) (v : value) :
    (Z.of_nat k <= max_retries)%Z -> retried_until k ->
    call func k = Return v ->
    run_ends
      (Return v,
       mkWorld (S k) (if jitter then k else 0%nat)
         (retries_trace rng func logger base_delay max_delay jitter
            (raised func) k ++ [Call k]))
| ends_unmatched (k : nat) (e : exn) :
    (Z.of_nat k <= max_retries)%Z -> retried_until k ->
    call func k = Raise e -> isinstance e exceptions = false ->
    run_ends
      (Raise e,
       mkWorld (S k) (if jitter then k else 0%nat)
         (retries_trace rng func logger base_delay max_delay jitter
            (raised func) k ++ [Call k]))
| ends_exhausted (k : nat) (e : exn) :
    Z.of_nat k = max_retries -> retried_until k ->
    call func k = Raise e -> isinstance e exceptions = true ->
    run_ends
      (Raise e,
       mkWorld (S k) (if jitter then k else 0%nat)
         (retries_trace rng func logger base_delay max_delay jitter
            (raised func) k
            ++ [Call k; log_event logger ERROR (msg_max_retries func e)]))
| ends_sleep_refused (k : nat) (e : exn) :
    (Z.of_nat k < max_retries)%Z -> retried_until k ->
    call func k = Raise e -> isinstance e exceptions = true ->
    delay_at rng base_delay max_delay jitter k < 0 ->
    run_ends
      (Raise ValueError_sleep,
       mkWorld (S k) (if jitter then S k else 0%nat)
         (retries_trace rng func logger base_delay max_delay jitter
            (raised func) k
            ++ [Call k] ++ (if jitter then [Random (rng k)] else [])
            ++ [log_event logger WARNING
                  (msg_attempt func (Z.of_nat k) e
                     (delay_at rng base_delay max_delay jitter k))])).

End RunEnds.

(** The time slept in all. *)
Definition total (delays : list Q) : Q := fold_right Qplus 0 delays.

Definition is_warning (r : level * string) : bool :=
  match fst r with
  | WARNING => true
  | ERROR => false
  end.

Definition is_error (r : level * string) : bool := negb (is_warning r).

(** One to five capital letters. *)
Definition ticker_shaped (text : string) : bool :=
  ((1 <=? String.length text) && (String.length text <=? 5))%nat
  && forallb is_upper_char (list_ascii_of_string text).

(** What every list returned by [get_ndaq_tickers] satisfies, whichever
    branch it comes from. *)
Definition listed (l : list string) : Prop :=
  (80 <= List.length l <= 120)%nat /\
  NoDup l /\
  forall t, In t l ->
    (1 <= String.length t <= 5)%nat /\
    isupper t = true /\ isalpha t = true /\
    ~ In t not_tickers.

(** ** Sample inputs *)

Definition boom : exn :=
  mkExn ["ConnectionError"; "OSError"; "Exception"; "BaseException"; "object"]
        "boom".

Definition interrupt : exn :=
  mkExn ["KeyboardInterrupt"; "BaseException"; "object"] "".

(** An operation that fails on every call. *)
Definition always_failing : callable :=
  mkCallable "fetch" (fun _ => Raise boom).

(** An operation that fails three times and then returns 42. *)
Definition flaky : callable :=
  mkCallable "fetch"
    (fun i => if (i <? 3)%nat then Raise boom else Return (VInt 42)).

(** An operation that returns 42 at once. *)
Definition succeeding : callable :=
  mkCallable "fetch" (fun _ => Return (VInt 42)).

(** An operation stopped by the user at its first call. *)
Definition interrupted : callable :=
  mkCallable "fetch" (fun _ => Raise interrupt).

(** A random source that always yields one half. *)
Definition halves : nat -> Q := fun _ => 1 # 2.

Definition app_logger : Logger := mkLogger "app".

(** * Properties *)

(** ** The definitions at work *)

Example format_2f_examples :
  format_2f (1 # 3) = "0.33" /\ format_2f 15 = "15.00" /\
  format_2f (12345 # 10) = "1234.50" /\ format_2f (-(1 # 1000)) = "-0.00".
Proof. repeat split. Qed.

Example isinstance_examples :
  isinstance boom ["Exception"] = true /\
  isinstance boom ["ValueError"; "OSError"] = true /\
  isinstance boom ["ValueError"] = false /\
  isinstance interrupt ["Exception"] = false.
Proof. repeat split. Qed.

Example keep_cell_examples :
  map keep_cell ["AAPL"; "GOOGL"; "NAME"; "GOOGLE"; "Apple"; "A1"; ""; "ZM"]
  = [true; true; false; false; false; false; false; true].
Proof. reflexivity. Qed.

Example sorted_set_example :
  sorted_set ["MSFT"; "AAPL"; "ZM"; "MSFT"; "AMD"; "AAPL"]
  = ["AAPL"; "AMD"; "MSFT"; "ZM"].
Proof. reflexivity. Qed.

Example get_ndaq_tickers_short_page :
  get_ndaq_tickers (Return [[["Ticker"; "Company"]; ["AAPL"; "Apple Inc."]]])
  = (Return get_ndaq_tickers_fallback,
     ["Warning: Got 1 tickers, expected ~100. Using fallback list."]).
Proof. reflexivity. Qed.

(** A run with a logger and jitter: one failure, then success. *)
Example retry_with_backoff_one_retry :
  retry_with_backoff halves
    (mkCallable "fetch"
       (fun i => if (i <? 1)%nat then Raise boom else Return (VStr "ok")))
    (Some app_logger) 5 1 30 ["Exception"] true
  = (Return (VStr "ok"),
     mkWorld 2 1
       [Call 0; Random (1 # 2);
        Log app_logger WARNING
          ("Attempt 1 for function 'fetch'" ++ newline ++
           "                  failed with boom. Retrying in 0.75 seconds...");
        Sleep (6 # 8);
        Call 1]).
Proof. reflexivity. Qed.

(** Case analysis of one pass through the [try] statement. *)
Ltac unfold_step :=
  unfold try_once, except_body, invoke, time_sleep, random_random,
    log_or_print, emit;
  cbn [calls draws trace].

Ltac break_step :=
  repeat (cbn [calls draws trace fst snd];
          match goal with
          | |- context [match ?x with _ => _ end] =>
              lazymatch x with
              | context [match _ with _ => _ end] => fail
              | _ => destruct x eqn:?
              end
          end);
  cbn [calls draws trace fst snd].

Section RetryProperties.

Variable rng : nat -> Q.
Variable func : callable.
Variable logger : option Logger.
Variable max_retries : Z.
Variables base_delay max_delay : Q.
Variable exceptions : list string.
Variable jitter : bool.

Local Abbreviation retry_loop :=
  (retry_loop rng func logger max_retries base_delay max_delay exceptions jitter).
Local Abbreviation try_once :=
  (try_once rng func logger max_retries base_delay max_delay exceptions jitter).
Local Abbreviation except_body :=
  (except_body rng func logger max_retries base_delay max_delay jitter).
Local Abbreviation log_event := (log_event logger).
Local Abbreviation delay_at := (delay_at rng base_delay max_delay jitter).
Local Abbreviation raw_delay := (raw_delay base_delay max_delay).
Local Abbreviation msg_attempt := (msg_attempt func).
Local Abbreviation msg_max_retries := (msg_max_retries func).
Local Abbreviation retry_round :=
  (retry_round rng func logger base_delay max_delay jitter).
Local Abbreviation retries_trace :=
  (retries_trace rng func logger base_delay max_delay jitter).
Local Abbreviation world_after :=
  (world_after rng func logger base_delay max_delay jitter).

(** The loop, one iteration unfolded. *)
Lemma retry_loop_eq (attempt : Z) (w : World) :
  retry_loop attempt w =
  if (attempt <=? max_retries)%Z then
    match try_once attempt w with
    | inl out => out
    | inr w' => retry_loop (attempt + 1) w'
    end
  else (Return VNone, w).
Proof.
  funelim (retry_loop attempt w);
    repeat match goal with
           | H : _ = retry_loop _ _ |- _ => clear H
           | H : (attempt <=? max_retries)%Z = _ |- _ => rewrite H
           | H : try_once attempt w = _ |- _ => rewrite H
           end; reflexivity.
Qed.


Lemma log_or_print_emit (lvl : level) (msg : string) (w : World) :
  log_or_print logger lvl msg w = emit (log_event lvl msg) w.
Proof. unfold log_or_print, log_event. destruct logger; reflexivity. Qed.

(** *** One pass through the [try] statement, case by case *)

Lemma try_once_returns (attempt : Z) (w : World) (v : value) :
  call func (calls w) = Return v ->
  try_once attempt w =
  inl (Return v, mkWorld (S (calls w)) (draws w) (trace w ++ [Call (calls w)])).
Proof.
  intros Hc. unfold try_once, invoke. rewrite Hc. reflexivity.
Qed.

Lemma try_once_uncaught (attempt : Z) (w : World) (e : exn) :
  call func (calls w) = Raise e ->
  isinstance e exceptions = false ->
  try_once attempt w =
  inl (Raise e, mkWorld (S (calls w)) (draws w) (trace w ++ [Call (calls w)])).
Proof.
  intros Hc He. unfold try_once, invoke. rewrite Hc, He. reflexivity.
Qed.

Lemma try_once_exhausted (w : World) (e : exn) :
  call func (calls w) = Raise e ->
  isinstance e exceptions = true ->
  try_once max_retries w =
  inl (Raise e,
       mkWorld (S (calls w)) (draws w)
               (trace w ++ [Call (calls w); log_event ERROR (msg_max_retries e)])).
Proof.
  intros Hc He. unfold try_once, invoke. rewrite Hc, He.
  unfold except_body. rewrite Z.eqb_refl, log_or_print_emit.
  unfold emit. cbn [calls draws trace]. rewrite <- app_assoc. reflexivity.
Qed.

Lemma retries_trace_S (err : nat -> exn) (k : nat) :
  retries_trace err (S k) = retries_trace err k ++ retry_round err k.
Proof.
  unfold retries_trace. rewrite seq_S, flat_map_app. cbn [flat_map].
  rewrite app_nil_r. reflexivity.
Qed.

(** A caught failure at attempt [k < max_retries] whose delay is accepted by
    [time.sleep] takes the run from [world_after err k] to
    [world_after err (S k)]. *)
Lemma try_once_retried (err : nat -> exn) (k : nat) :
  call func k = Raise (err k) ->
  isinstance (err k) exceptions = true ->
  Z.of_nat k <> max_retries ->
  0 <= delay_at k ->
  try_once (Z.of_nat k) (world_after err k) = inr (world_after err (S k)).
Proof.
  intros Hc He Hk Hd.
  unfold try_once, invoke, world_after. cbn [calls draws trace].
  rewrite Hc, He. unfold except_body.
  apply Z.eqb_neq in Hk. rewrite Hk.
  rewrite retries_trace_S. unfold retry_round.
  unfold delay_at in *.
  destruct jitter; cbn [random_random calls draws trace];
    rewrite log_or_print_emit; unfold time_sleep;
    apply Qle_bool_iff in Hd; rewrite Hd;
    unfold emit; cbn [calls draws trace];
    rewrite <- !app_assoc; reflexivity.
Qed.

(** *** Delays are never negative for a well-formed policy *)

Lemma raw_delay_nonneg (a : Z) :
  0 <= base_delay -> 0 <= max_delay -> 0 <= raw_delay a.
Proof.
  intros Hb Hm. unfold raw_delay. apply Q.min_glb; [exact Hm|].
  apply Qmult_le_0_compat; [exact Hb|].
  change 0 with (inject_Z 0). rewrite <- Zle_Qle. apply Z.pow_nonneg. lia.
Qed.

Lemma jittered_bounds (raw r : Q) :
  0 <= raw -> 0 <= r < 1 ->
  (1 # 2) * raw <= jittered raw r <= raw.
Proof.
  intros Hraw [Hr0 Hr1]. unfold jittered.
  assert (E : raw * ((1 # 2) + r / 2) == (1 # 2) * raw + (1 # 2) * (raw * r))
    by field.
  rewrite E.
  assert (H0 : 0 <= raw * r) by (apply Qmult_le_0_compat; assumption).
  assert (H1 : raw * r <= raw).
  { rewrite <- (Qmult_1_r raw) at 2.
    apply Qmult_le_compat_nonneg; split; try assumption;
      [apply Qle_refl | apply Qlt_le_weak; assumption]. }
  split; lra.
Qed.

Lemma delay_at_nonneg (i : nat) :
  0 <= base_delay -> 0 <= max_delay ->
  (jitter = true -> forall j, 0 <= rng j < 1) ->
  0 <= delay_at i.
Proof.
  intros Hb Hm Hr. unfold delay_at.
  pose proof (raw_delay_nonneg (Z.of_nat i) Hb Hm) as Hraw.
  destruct jitter eqn:Hj; [|exact Hraw].
  destruct (jittered_bounds _ _ Hraw (Hr eq_refl i)) as [Hlo _].
  apply Qle_trans with ((1 # 2) * raw_delay (Z.of_nat i)); [|exact Hlo].
  apply Qmult_le_0_compat; [discriminate | exact Hraw].
Qed.

(** *** A run that starts with [k] retried failures *)

Lemma world_after_0 (err : nat -> exn) : world_after err 0 = init_world.
Proof. unfold world_after, init_world. destruct jitter; reflexivity. Qed.

Lemma run_prefix (err : nat -> exn) (k : nat) :
  (Z.of_nat k <= max_retries)%Z ->
  (forall i, (i < k)%nat ->
             call func i = Raise (err i) /\
             isinstance (err i) exceptions = true /\
             0 <= delay_at i) ->
  retry_loop 0 init_world = retry_loop (Z.of_nat k) (world_after err k).
Proof.
  induction k as [|k IH]; intros Hk Hfail.
  - rewrite world_after_0. reflexivity.
  - rewrite IH by (try lia; intros i Hi; apply Hfail; lia).
    rewrite retry_loop_eq.
    replace (Z.of_nat k <=? max_retries)%Z with true
      by (symmetry; apply Z.leb_le; lia).
    destruct (Hfail k (Nat.lt_succ_diag_r k)) as (Hc & He & Hd).
    rewrite (try_once_retried err k Hc He) by (try assumption; lia).
    f_equal. lia.
Qed.

(** All [max_retries + 1] attempts fail with a caught exception. *)
Lemma run_exhausted (err : nat -> exn) :
  (0 <= max_retries)%Z ->
  (forall i, (i <= Z.to_nat max_retries)%nat ->
             call func i = Raise (err i) /\
             isinstance (err i) exceptions = true) ->
  (forall i, (i < Z.to_nat max_retries)%nat -> 0 <= delay_at i) ->
  let n := Z.to_nat max_retries in
  retry_loop 0 init_world =
  (Raise (err n),
   mkWorld (S n) (if jitter then n else 0%nat)
           (retries_trace err n
              ++ [Call n; log_event ERROR (msg_max_retries (err n))])).
Proof.
  intros Hn Hfail Hd n.
  rewrite (run_prefix err n)
    by (subst n; try lia; intros i Hi;
        destruct (Hfail i) as [Hc He]; try lia; auto).
  rewrite retry_loop_eq.
  replace (Z.of_nat n) with max_retries by (subst n; lia).
  rewrite Z.leb_refl.
  destruct (Hfail n (Nat.le_refl _)) as [Hc He].
  rewrite try_once_exhausted with (e := err n); [reflexivity | exact Hc | exact He].
Qed.

(** Attempt [k] is the first that does not end in a retry: it returns. *)
Lemma run_success (err : nat -> exn) (k : nat) (v : value) :
  (Z.of_nat k <= max_retries)%Z ->
  (forall i, (i < k)%nat ->
             call func i = Raise (err i) /\
             isinstance (err i) exceptions = true /\
             0 <= delay_at i) ->
  call func k = Return v ->
  retry_loop 0 init_world =
  (Return v,
   mkWorld (S k) (if jitter then k else 0%nat) (retries_trace err k ++ [Call k])).
Proof.
  intros Hk Hfail Hc.
  rewrite (run_prefix err k Hk Hfail), retry_loop_eq.
  replace (Z.of_nat k <=? max_retries)%Z with true
    by (symmetry; apply Z.leb_le; lia).
  rewrite try_once_returns with (v := v); [reflexivity | exact Hc].
Qed.

(** Attempt [k] raises an exception that the [except] clause does not match. *)
Lemma run_uncaught (err : nat -> exn) (k : nat) (e : exn) :
  (Z.of_nat k <= max_retries)%Z ->
  (forall i, (i < k)%nat ->
             call func i = Raise (err i) /\
             isinstance (err i) exceptions = true /\
             0 <= delay_at i) ->
  call func k = Raise e ->
  isinstance e exceptions = false ->
  retry_loop 0 init_world =
  (Raise e,
   mkWorld (S k) (if jitter then k else 0%nat) (retries_trace err k ++ [Call k])).
Proof.
  intros Hk Hfail Hc He.
  rewrite (run_prefix err k Hk Hfail), retry_loop_eq.
  replace (Z.of_nat k <=? max_retries)%Z with true
    by (symmetry; apply Z.leb_le; lia).
  rewrite try_once_uncaught with (e := e); [reflexivity | exact Hc | exact He].
Qed.

(** The loop is not entered when [max_retries] is negative. *)
Lemma run_not_entered :
  (max_retries < 0)%Z -> retry_loop 0 init_world = (Return VNone, init_world).
Proof.
  intros Hn. rewrite retry_loop_eq.
  replace (0 <=? max_retries)%Z with false
    by (symmetry; apply Z.leb_gt; exact Hn).
  reflexivity.
Qed.

(** *** Projections of the trace of the retried attempts *)

Lemma project_retries {A : Type} (f : event -> list A) (h : nat -> A)
    (err : nat -> exn) (k : nat) :
  (forall i, flat_map f (retry_round err i) = [h i]) ->
  flat_map f (retries_trace err k) = map h (seq 0 k).
Proof.
  intros Hround. induction k as [|k IH]; [reflexivity|].
  rewrite retries_trace_S, flat_map_app, IH, Hround, seq_S, map_app.
  reflexivity.
Qed.

Lemma sleeps_retries (err : nat -> exn) (k : nat) :
  sleeps (retries_trace err k) = map delay_at (seq 0 k).
Proof.
  apply project_retries. intros i. unfold retry_round, log_event.
  destruct jitter, logger; reflexivity.
Qed.

Lemma invocations_retries (err : nat -> exn) (k : nat) :
  invocations (retries_trace err k) = seq 0 k.
Proof.
  rewrite <- (map_id (seq 0 k)).
  apply project_retries. intros i. unfold retry_round, log_event.
  destruct jitter, logger; reflexivity.
Qed.

Lemma messages_retries (err : nat -> exn) (k : nat) :
  messages (retries_trace err k) =
  map (fun i => msg_attempt (Z.of_nat i) (err i) (delay_at i)) (seq 0 k).
Proof.
  apply project_retries. intros i. unfold retry_round, log_event.
  destruct jitter, logger; reflexivity.
Qed.

Lemma project_retries_nil {A : Type} (f : event -> list A)
    (err : nat -> exn) (k : nat) :
  (forall i, flat_map f (retry_round err i) = []) ->
  flat_map f (retries_trace err k) = [].
Proof.
  intros Hround. induction k as [|k IH]; [reflexivity|].
  rewrite retries_trace_S, flat_map_app, IH, Hround. reflexivity.
Qed.

(** *** Reasoning about every run: the loop rule *)

Lemma retry_loop_rule (P : Z -> World -> pyresult value * World -> Prop) :
  (forall a w, (max_retries < a)%Z -> P a w (Return VNone, w)) ->
  (forall a w out,
      (a <= max_retries)%Z -> try_once a w = inl out -> P a w out) ->
  (forall a w w',
      (a <= max_retries)%Z -> try_once a w = inr w' ->
      P (a + 1)%Z w' (retry_loop (a + 1) w') ->
      P a w (retry_loop (a + 1) w')) ->
  forall a w, P a w (retry_loop a w).
Proof.
  intros Hexit Hleave Hagain a w.
  remember (Z.to_nat (max_retries + 1 - a)) as n eqn:Hn.
  revert a w Hn. induction n as [|n IH]; intros a w Hn;
    rewrite retry_loop_eq; destruct (Z.leb_spec a max_retries) as [Hle|Hgt];
    try (apply Hexit; exact Hgt); try lia.
  destruct (try_once a w) as [out|w'] eqn:Hstep.
  - apply Hleave; assumption.
  - apply Hagain; try assumption. apply IH. lia.
Qed.

(** *** Every sleep of every run is the backoff delay of its attempt *)

Lemma try_once_sleeps (a : Z) (w : World) :
  (0 <= a)%Z ->
  draws w = (if jitter then Z.to_nat a else 0%nat) ->
  match try_once a w with
  | inl (_, w') => sleeps (trace w') = sleeps (trace w)
  | inr w' =>
      sleeps (trace w') = sleeps (trace w) ++ [delay_at (Z.to_nat a)] /\
      draws w' = (if jitter then Z.to_nat (a + 1) else 0%nat)
  end.
Proof.
  intros Ha Hdraws. unfold delay_at. unfold_step. break_step;
    unfold sleeps; rewrite ?flat_map_app; cbn [flat_map app];
    rewrite ?app_nil_r; try reflexivity;
    rewrite ?Z2Nat.id by exact Ha; rewrite ?Hdraws;
    (split; [reflexivity | try reflexivity]).
  all: lia.
Qed.

Lemma sleeps_backoff_prefix :
  exists m, sleeps (trace (snd (retry_loop 0 init_world))) =
            map delay_at (seq 0 m).
Proof.
  assert (G : forall a w,
             (0 <= a)%Z ->
             draws w = (if jitter then Z.to_nat a else 0%nat) ->
             sleeps (trace w) = map delay_at (seq 0 (Z.to_nat a)) ->
             exists m, sleeps (trace (snd (retry_loop a w))) =
                       map delay_at (seq 0 m)).
  { apply (retry_loop_rule
             (fun a w out =>
                (0 <= a)%Z ->
                draws w = (if jitter then Z.to_nat a else 0%nat) ->
                sleeps (trace w) = map delay_at (seq 0 (Z.to_nat a)) ->
                exists m, sleeps (trace (snd out)) = map delay_at (seq 0 m))).
    - intros a w _ _ _ Hs. exists (Z.to_nat a). exact Hs.
    - intros a w [r w'] _ Hstep Ha Hd Hs.
      pose proof (try_once_sleeps a w Ha Hd) as Hstep'. rewrite Hstep in Hstep'.
      exists (Z.to_nat a). cbn [snd]. rewrite Hstep'. exact Hs.
    - intros a w w' _ Hstep IH Ha Hd Hs.
      pose proof (try_once_sleeps a w Ha Hd) as Hstep'. rewrite Hstep in Hstep'.
      destruct Hstep' as [Hs' Hd'].
      apply IH; [lia | exact Hd' |].
      rewrite Hs', Hs. rewrite Z2Nat.inj_add by lia. rewrite Nat.add_1_r.
      rewrite seq_S, map_app. reflexivity. }
  apply G; [lia | destruct jitter; reflexivity | reflexivity].
Qed.

(** *** A run only adds to the world *)

Lemma try_once_extends (a : Z) (w : World) :
  match try_once a w with
  | inl (_, w') =>
      exists tr, trace w' = trace w ++ Call (calls w) :: tr /\
                 calls w' = S (calls w)
  | inr w' =>
      exists tr, trace w' = trace w ++ Call (calls w) :: tr /\
                 calls w' = S (calls w)
  end.
Proof.
  unfold_step. break_step; rewrite <- ?app_assoc; cbn [app];
    eexists; split; reflexivity.
Qed.

Lemma retry_loop_extends (a : Z) (w : World) :
  exists tr, trace (snd (retry_loop a w)) = trace w ++ tr /\
             (calls w <= calls (snd (retry_loop a w)))%nat.
Proof.
  apply (retry_loop_rule
           (fun a w out => exists tr, trace (snd out) = trace w ++ tr /\
                                      (calls w <= calls (snd out))%nat)).
  - clear a w. intros a w _. exists []. cbn [snd]. rewrite app_nil_r.
    split; [reflexivity | lia].
  - clear a w. intros a w [r w'] _ Hstep.
    pose proof (try_once_extends a w) as H. rewrite Hstep in H.
    destruct H as (tr & Htr & Hc). cbn [snd]. eexists. split; [exact Htr | lia].
  - clear a w. intros a w w' _ Hstep (tr' & Htr' & Hc').
    pose proof (try_once_extends a w) as H. rewrite Hstep in H.
    destruct H as (tr & Htr & Hc). rewrite Htr', Htr, <- app_assoc.
    eexists. split; [reflexivity | lia].
Qed.

(** When the loop is entered, the first thing a run does is to call [func]. *)
Lemma run_starts_with_call :
  (0 <= max_retries)%Z ->
  exists tr, trace (snd (retry_loop 0 init_world)) = Call 0 :: tr /\
             (1 <= calls (snd (retry_loop 0 init_world)))%nat.
Proof.
  intros Hn. rewrite retry_loop_eq.
  replace (0 <=? max_retries)%Z with true by (symmetry; apply Z.leb_le; exact Hn).
  pose proof (try_once_extends 0 init_world) as H.
  destruct (try_once 0 init_world) as [[r w']|w'].
  - destruct H as (tr & Htr & Hc). exists tr. cbn [snd]. rewrite Htr, Hc.
    split; [reflexivity | cbn; lia].
  - destruct H as (tr & Htr & Hc).
    destruct (retry_loop_extends (0 + 1) w') as (tr' & Htr' & Hc').
    rewrite Htr', Htr. cbn [init_world trace calls app] in *.
    eexists. split; [reflexivity | lia].
Qed.

End RetryProperties.

(** What the retried attempts logged and printed, by logger. *)
Lemma log_records_retries (rng : nat -> Q) (func : callable)
    (logger : option Logger) (base_delay max_delay : Q) (jitter : bool)
    (err : nat -> exn) (k : nat) :
  log_records (retries_trace rng func logger base_delay max_delay jitter err k) =
  match logger with
  | Some _ =>
      map (fun i => (WARNING,
                     msg_attempt func (Z.of_nat i) (err i)
                       (delay_at rng base_delay max_delay jitter i)))
          (seq 0 k)
  | None => []
  end.
Proof.
  unfold log_records. destruct logger.
  - apply project_retries. intros i. unfold retry_round, log_event.
    destruct jitter; reflexivity.
  - apply project_retries_nil. intros i. unfold retry_round, log_event.
    destruct jitter; reflexivity.
Qed.


(** ** With or without a logger *)

Lemma printed_unlogged (tr : list event) :
  printed (map unlogged tr) = messages tr.
Proof.
  unfold printed, messages.
  induction tr as [|ev tr IH]; [reflexivity|].
  destruct ev; cbn [map unlogged flat_map app]; rewrite ?IH; reflexivity.
Qed.

Lemma messages_unlogged (tr : list event) :
  messages (map unlogged tr) = messages tr.
Proof.
  unfold messages.
  induction tr as [|ev tr IH]; [reflexivity|].
  destruct ev; cbn [map unlogged flat_map app]; rewrite ?IH; reflexivity.
Qed.

Lemma sleeps_unlogged (tr : list event) :
  sleeps (map unlogged tr) = sleeps tr.
Proof.
  unfold sleeps.
  induction tr as [|ev tr IH]; [reflexivity|].
  destruct ev; cbn [map unlogged flat_map app]; rewrite ?IH; reflexivity.
Qed.

Lemma log_records_unlogged (tr : list event) :
  log_records (map unlogged tr) = [].
Proof.
  unfold log_records.
  induction tr as [|ev tr IH]; [reflexivity|].
  destruct ev; cbn [map unlogged flat_map app]; rewrite ?IH; reflexivity.
Qed.

Lemma messages_log_records (tr : list event) :
  printed tr = [] -> messages tr = map snd (log_records tr).
Proof.
  unfold printed, messages, log_records.
  induction tr as [|ev tr IH]; [reflexivity|].
  destruct ev; cbn [map snd flat_map app]; intros Hp; try discriminate;
    rewrite IH by exact Hp; reflexivity.
Qed.

Section LoggerIndependence.

Variable rng : nat -> Q.
Variable func : callable.
Variable lg : Logger.
Variable max_retries : Z.
Variables base_delay max_delay : Q.
Variable exceptions : list string.
Variable jitter : bool.

Local Abbreviation loop_with logger :=
  (retry_loop rng func logger max_retries base_delay max_delay exceptions jitter).
Local Abbreviation try_with logger :=
  (try_once rng func logger max_retries base_delay max_delay exceptions jitter).

(** One pass without a logger does what one pass with a logger does, with
    every [logger.warning] and [logger.error] replaced by a [print] of the
    same text. *)
Lemma try_once_unlogged (a : Z) (w : World) :
  try_with None a (unlog_world w) =
  match try_with (Some lg) a w with
  | inl (r, w') => inl (r, unlog_world w')
  | inr w' => inr (unlog_world w')
  end.
Proof.
  unfold unlog_world. unfold_step. break_step;
    rewrite ?map_app; try reflexivity; congruence.
Qed.

Lemma retry_loop_unlogged (a : Z) (w : World) :
  loop_with None a (unlog_world w) =
  (fst (loop_with (Some lg) a w), unlog_world (snd (loop_with (Some lg) a w))).
Proof.
  apply (retry_loop_rule rng func (Some lg) max_retries base_delay max_delay
           exceptions jitter
           (fun a w out => loop_with None a (unlog_world w)
                           = (fst out, unlog_world (snd out)))).
  - clear a w. intros a w Hgt. rewrite retry_loop_eq.
    replace (a <=? max_retries)%Z with false
      by (symmetry; apply Z.leb_gt; exact Hgt).
    reflexivity.
  - clear a w. intros a w [r w'] Hle Hstep. rewrite retry_loop_eq.
    replace (a <=? max_retries)%Z with true
      by (symmetry; apply Z.leb_le; exact Hle).
    rewrite try_once_unlogged, Hstep. reflexivity.
  - clear a w. intros a w w' Hle Hstep IH. rewrite retry_loop_eq.
    replace (a <=? max_retries)%Z with true
      by (symmetry; apply Z.leb_le; exact Hle).
    rewrite try_once_unlogged, Hstep. exact IH.
Qed.

(** With a logger nothing is printed. *)
Lemma try_once_logger_prints_nothing (a : Z) (w : World) :
  match try_with (Some lg) a w with
  | inl (_, w') => printed (trace w') = printed (trace w)
  | inr w' => printed (trace w') = printed (trace w)
  end.
Proof.
  unfold_step. break_step; unfold printed; rewrite ?flat_map_app;
    cbn [flat_map app]; rewrite ?app_nil_r; reflexivity.
Qed.

Lemma retry_loop_logger_prints_nothing (a : Z) (w : World) :
  printed (trace (snd (loop_with (Some lg) a w))) = printed (trace w).
Proof.
  apply (retry_loop_rule rng func (Some lg) max_retries base_delay max_delay
           exceptions jitter
           (fun a w out => printed (trace (snd out)) = printed (trace w))).
  - reflexivity.
  - clear a w. intros a w [r w'] _ Hstep.
    pose proof (try_once_logger_prints_nothing a w) as H.
    rewrite Hstep in H. exact H.
  - clear a w. intros a w w' _ Hstep IH.
    pose proof (try_once_logger_prints_nothing a w) as H.
    rewrite Hstep in H. rewrite IH. exact H.
Qed.

End LoggerIndependence.

(** ** Without jitter the random source is not consulted *)

Section NoJitter.

Variable func : callable.
Variable logger : option Logger.
Variable max_retries : Z.
Variables base_delay max_delay : Q.
Variable exceptions : list string.

Local Abbreviation loop_on rng :=
  (retry_loop rng func logger max_retries base_delay max_delay exceptions false).
Local Abbreviation try_on rng :=
  (try_once rng func logger max_retries base_delay max_delay exceptions false).

Lemma try_once_rng_irrelevant (rng1 rng2 : nat -> Q) (a : Z) (w : World) :
  try_on rng1 a w = try_on rng2 a w.
Proof. reflexivity. Qed.

Lemma retry_loop_rng_irrelevant (rng1 rng2 : nat -> Q) (a : Z) (w : World) :
  loop_on rng2 a w = loop_on rng1 a w.
Proof.
  apply (retry_loop_rule rng1 func logger max_retries base_delay max_delay
           exceptions false (fun a w out => loop_on rng2 a w = out)).
  - clear a w. intros a w Hgt. rewrite retry_loop_eq.
    replace (a <=? max_retries)%Z with false
      by (symmetry; apply Z.leb_gt; exact Hgt).
    reflexivity.
  - clear a w. intros a w out Hle Hstep. rewrite retry_loop_eq.
    replace (a <=? max_retries)%Z with true
      by (symmetry; apply Z.leb_le; exact Hle).
    rewrite (try_once_rng_irrelevant rng2 rng1), Hstep. reflexivity.
  - clear a w. intros a w w' Hle Hstep IH. rewrite retry_loop_eq.
    replace (a <=? max_retries)%Z with true
      by (symmetry; apply Z.leb_le; exact Hle).
    rewrite (try_once_rng_irrelevant rng2 rng1), Hstep. exact IH.
Qed.

Lemma try_once_no_draw (rng : nat -> Q) (a : Z) (w : World) :
  match try_on rng a w with
  | inl (_, w') =>
      draws w' = draws w /\ randoms (trace w') = randoms (trace w)
  | inr w' =>
      draws w' = draws w /\ randoms (trace w') = randoms (trace w)
  end.
Proof.
  unfold_step. break_step; unfold randoms; rewrite ?flat_map_app;
    cbn [flat_map app]; rewrite ?app_nil_r; split; reflexivity.
Qed.

Lemma retry_loop_no_draw (rng : nat -> Q) (a : Z) (w : World) :
  draws (snd (loop_on rng a w)) = draws w /\
  randoms (trace (snd (loop_on rng a w))) = randoms (trace w).
Proof.
  apply (retry_loop_rule rng func logger max_retries base_delay max_delay
           exceptions false
           (fun a w out => draws (snd out) = draws w /\
                           randoms (trace (snd out)) = randoms (trace w))).
  - split; reflexivity.
  - clear a w. intros a w [r w'] _ Hstep.
    pose proof (try_once_no_draw rng a w) as H. rewrite Hstep in H. exact H.
  - clear a w. intros a w w' _ Hstep [IHd IHr].
    pose proof (try_once_no_draw rng a w) as H. rewrite Hstep in H.
    destruct H as [Hd Hr]. split; congruence.
Qed.

End NoJitter.

(** ** The set of tickers, sorted *)

Lemma insert_uniq_In (x y : string) (l : list string) :
  In y (insert_uniq x l) <-> y = x \/ In y l.
Proof.
  induction l as [|z l IH]; cbn [insert_uniq].
  - cbn. intuition congruence.
  - destruct (String_as_OT.compare_spec x z) as [Heq|Hlt|Hgt]; cbn [In].
    + change (x = z) in Heq. subst z. intuition congruence.
    + intuition congruence.
    + rewrite IH. intuition congruence.
Qed.

Lemma insert_uniq_HdRel (a x : string) (l : list string) :
  HdRel String_as_OT.lt a l -> String_as_OT.lt a x ->
  HdRel String_as_OT.lt a (insert_uniq x l).
Proof.
  intros Hl Hx. destruct l as [|z l]; cbn [insert_uniq].
  - constructor. exact Hx.
  - destruct (String_as_OT.compare_spec x z); [exact Hl | constructor; exact Hx |].
    constructor. inversion Hl; assumption.
Qed.

Lemma insert_uniq_Sorted (x : string) (l : list string) :
  Sorted String_as_OT.lt l -> Sorted String_as_OT.lt (insert_uniq x l).
Proof.
  induction l as [|z l IH]; intros Hs; cbn [insert_uniq].
  - repeat constructor.
  - destruct (String_as_OT.compare_spec x z) as [Heq|Hlt|Hgt].
    + exact Hs.
    + constructor; [exact Hs | constructor; exact Hlt].
    + inversion Hs as [|? ? Hs' Hhd]; subst.
      constructor; [apply IH; exact Hs' | apply insert_uniq_HdRel; assumption].
Qed.

Lemma sorted_set_Sorted (l : list string) :
  Sorted String_as_OT.lt (sorted_set l).
Proof.
  induction l as [|x l IH]; cbn; [constructor | apply insert_uniq_Sorted, IH].
Qed.

Lemma sorted_set_In (x : string) (l : list string) :
  In x (sorted_set l) <-> In x l.
Proof.
  induction l as [|y l IH]; cbn [sorted_set fold_right In]; [reflexivity|].
  fold (sorted_set l). rewrite insert_uniq_In, IH. intuition congruence.
Qed.

Lemma Sorted_lt_NoDup (l : list string) :
  Sorted String_as_OT.lt l -> NoDup l.
Proof.
  intros Hs. apply Sorted_StronglySorted in Hs.
  2:{ intros x y z. apply String_as_OT.lt_strorder. }
  induction Hs as [|x l Hs IH Hall]; constructor; [|exact IH].
  intros Hin. rewrite Forall_forall in Hall. specialize (Hall x Hin).
  revert Hall. apply String_as_OT.lt_strorder.
Qed.

Lemma collect_tickers_In (x : string) (tables : list table) :
  In x (collect_tickers tables) <->
  exists t r, In t tables /\ In r t /\ In x r /\ keep_cell x = true.
Proof.
  unfold collect_tickers. rewrite in_flat_map. split.
  - intros (t & Ht & Hx). apply in_flat_map in Hx. destruct Hx as (r & Hr & Hx).
    apply filter_In in Hx. destruct Hx as [Hx Hk]. exists t, r. auto.
  - intros (t & r & Ht & Hr & Hx & Hk). exists t. split; [exact Ht|].
    apply in_flat_map. exists r. split; [exact Hr|].
    apply filter_In. auto.
Qed.

Lemma fallback_length : List.length get_ndaq_tickers_fallback = 85%nat.
Proof. reflexivity. Qed.

(** ** A negative delay

    Nothing looks at [base_delay] and [max_delay] before they are used: a
    negative delay is logged and then refused by [time.sleep], whose
    [ValueError] leaves the function from inside the handler. *)
Lemma negative_delay_surfaces_in_sleep :
  retry_with_backoff halves always_failing None 3 (-1) 30 ["Exception"] false
  = (Raise ValueError_sleep,
     mkWorld 1 0
       [Call 0;
        Print (msg_attempt always_failing 0 boom (-1))]).
Proof. reflexivity. Qed.

(** * The claims of the specification *)




(** C2. With positive [base_delay] and [max_delay] and random values in the
    unit interval, in every run the delay slept after the failure of attempt
    [a] is computed from [raw = min(max_delay, base_delay * 2^a)]:
    without jitter it is [raw] itself; with jitter it is
    [raw * (0.5 + r/2)] for the random value [r] drawn at that attempt, which
    lies between [0.5 * raw] and [raw]. *)
Theorem backoff_delay_bounds
    (rng : nat -> Q) (func : callable) (logger : option Logger)
    (max_retries : Z) (base_delay max_delay : Q) (exceptions : list string)
    (jitter : bool) (a : nat) (d : Q) :
  0 < base_delay -> 0 < max_delay -> (forall i, 0 <= rng i < 1) ->
  nth_error
    (sleeps (trace (snd (retry_with_backoff rng func logger max_retries
                           base_delay max_delay exceptions jitter)))) a
    = Some d ->
  let raw := Qmin max_delay (base_delay * inject_Z (2 ^ Z.of_nat a)) in
  if jitter
  then d = raw * ((1 # 2) + rng a / 2) /\ (1 # 2) * raw <= d <= raw
  else d = raw.
Proof.
  intros Hb Hm Hr Hnth raw.
  destruct (sleeps_backoff_prefix rng func logger max_retries base_delay
              max_delay exceptions jitter) as [m Hs].
  unfold retry_with_backoff in Hnth. rewrite Hs in Hnth.
  rewrite nth_error_map, nth_error_seq in Hnth.
  destruct (a <? m)%nat; [|discriminate].
  cbn in Hnth. injection Hnth as Hd. subst d.
  unfold delay_at. fold raw. destruct jitter; [|reflexivity].
  split; [reflexivity|].
  apply jittered_bounds; [|apply Hr].
  apply raw_delay_nonneg; apply Qlt_le_weak; assumption.
Qed.

Lemma backoff_delay_bounds_witness :
  (6 # 8) = Qmin 30 (1 * inject_Z (2 ^ Z.of_nat 0)) * ((1 # 2) + halves 0%nat / 2) /\
  (1 # 2) * Qmin 30 (1 * inject_Z (2 ^ Z.of_nat 0)) <= (6 # 8)
    <= Qmin 30 (1 * inject_Z (2 ^ Z.of_nat 0)).
Proof.
  assert (Hb : 0 < 1) by reflexivity.
  assert (Hm : 0 < 30) by reflexivity.
  assert (Hr : forall i, 0 <= halves i < 1)
    by (intros i; split; [discriminate | reflexivity]).
  assert (Hnth : nth_error
            (sleeps (trace (snd (retry_with_backoff halves always_failing
                                   (Some app_logger) 2 1 30 ["Exception"]
                                   true)))) 0 = Some (6 # 8))
    by reflexivity.
  exact (backoff_delay_bounds halves always_failing (Some app_logger) 2 1 30
           ["Exception"] true 0 (6 # 8) Hb Hm Hr Hnth).
Defined.




(** C4. If the first call raises an exception that is not an instance of
    the [exceptions] tuple, the run is that one call: the exception leaves
    the function at once, nothing is slept, logged or printed, no random
    value is drawn. (The operation is called at all only when
    [max_retries >= 0].) *)
Theorem unmatched_failure_propagates_at_once
    (rng : nat -> Q) (func : callable) (logger : option Logger)
    (max_retries : Z) (base_delay max_delay : Q) (exceptions : list string)
    (jitter : bool) (e : exn) :
  (0 <= max_retries)%Z ->
  call func 0 = Raise e ->
  isinstance e exceptions = false ->
  let out := retry_with_backoff rng func logger max_retries base_delay
               max_delay exceptions jitter in
  out = (Raise e, mkWorld 1 0 [Call 0]) /\
  calls (snd out) = 1%nat /\
  sleeps (trace (snd out)) = [] /\
  messages (trace (snd out)) = [].
Proof.
  intros Hn Hc He out.
  assert (Hout : out = (Raise e, mkWorld 1 0 [Call 0])).
  { subst out. unfold retry_with_backoff.
    rewrite (run_uncaught rng func logger max_retries base_delay max_delay
               exceptions jitter (fun _ => e) 0 e);
      [destruct jitter; reflexivity | exact Hn | intros i Hi; lia
       | exact Hc | exact He]. }
  rewrite Hout. repeat split.
Qed.

Lemma unmatched_failure_propagates_at_once_witness :
  retry_with_backoff halves interrupted None 5 1 30 ["Exception"] true
  = (Raise interrupt, mkWorld 1 0 [Call 0]).
Proof.
  assert (Hn : (0 <= 5)%Z) by lia.
  assert (Hc : call interrupted 0 = Raise interrupt) by reflexivity.
  assert (He : isinstance interrupt ["Exception"] = false) by reflexivity.
  exact (proj1 (unmatched_failure_propagates_at_once halves interrupted None 5
                  1 30 ["Exception"] true interrupt Hn Hc He)).
Defined.

(** C5. With [base_delay = 10], [max_delay = 15], [max_retries = 3], no
    jitter, and an operation whose every call fails with a matched
    exception, the sleeps are 10, 15 (the clamp of 20) and 15 (the clamp of
    40) in that order, the operation is called 4 times and the exception of
    the fourth call is raised. *)
Theorem clamp_scenario
    (rng : nat -> Q) (func : callable) (logger : option Logger)
    (exceptions : list string) (err : nat -> exn) :
  (forall i, call func i = Raise (err i) /\
             isinstance (err i) exceptions = true) ->
  let out := retry_with_backoff rng func logger 3 10 15 exceptions false in
  fst out = Raise (err 3%nat) /\
  calls (snd out) = 4%nat /\
  invocations (trace (snd out)) = [0; 1; 2; 3]%nat /\
  sleeps (trace (snd out)) = [Qmin 15 10; Qmin 15 20; Qmin 15 40] /\
  sleeps (trace (snd out)) = [10; 15; 15].
Proof.
  intros Hfail out. subst out. unfold retry_with_backoff.
  rewrite (run_exhausted rng func logger 3 10 15 exceptions false err);
    [| lia | intros i _; apply Hfail
     | intros i _; apply raw_delay_nonneg; discriminate].
  cbn [fst snd calls trace]. repeat split.
  - unfold invocations. rewrite flat_map_app.
    fold (invocations (retries_trace rng func logger 10 15 false err
                         (Z.to_nat 3))).
    rewrite invocations_retries. unfold log_event. destruct logger; reflexivity.
  - unfold sleeps. rewrite flat_map_app.
    fold (sleeps (retries_trace rng func logger 10 15 false err (Z.to_nat 3))).
    rewrite sleeps_retries. unfold log_event. destruct logger; reflexivity.
  - unfold sleeps. rewrite flat_map_app.
    fold (sleeps (retries_trace rng func logger 10 15 false err (Z.to_nat 3))).
    rewrite sleeps_retries. unfold log_event. destruct logger; reflexivity.
Qed.

Lemma clamp_scenario_witness :
  fst (retry_with_backoff halves always_failing None 3 10 15 ["Exception"]
         false) = Raise boom /\
  sleeps (trace (snd (retry_with_backoff halves always_failing None 3 10 15
                        ["Exception"] false))) = [10; 15; 15].
Proof.
  assert (Hfail : forall i, call always_failing i = Raise ((fun _ => boom) i) /\
                            isinstance ((fun _ => boom) i) ["Exception"] = true)
    by (intros i; split; reflexivity).
  pose proof (clamp_scenario halves always_failing None ["Exception"]
                (fun _ => boom) Hfail) as H.
  cbv zeta in H. destruct H as (Hres & _ & _ & _ & Hsleeps).
  split; [exact Hres | exact Hsleeps].
Defined.

(** C9. For every [max_retries < 0] the loop test fails on entry: the
    operation is never called, nothing is slept, logged or printed, and
    the function returns [None] without raising. *)
Theorem negative_max_retries_returns_none
    (rng : nat -> Q) (func : callable) (logger : option Logger)
    (max_retries : Z) (base_delay max_delay : Q) (exceptions : list string)
    (jitter : bool) :
  (max_retries < 0)%Z ->
  let out := retry_with_backoff rng func logger max_retries base_delay
               max_delay exceptions jitter in
  fst out = Return VNone /\
  calls (snd out) = 0%nat /\
  trace (snd out) = [] /\
  sleeps (trace (snd out)) = [] /\
  messages (trace (snd out)) = [].
Proof.
  intros Hn out. subst out. unfold retry_with_backoff.
  rewrite run_not_entered by exact Hn. repeat split.
Qed.

Lemma negative_max_retries_returns_none_witness :
  fst (retry_with_backoff halves always_failing None (-1) 1 30 ["Exception"]
         true) = Return VNone /\
  calls (snd (retry_with_backoff halves always_failing None (-1) 1 30
                ["Exception"] true)) = 0%nat.
Proof.
  assert (Hn : (-1 < 0)%Z) by lia.
  pose proof (negative_max_retries_returns_none halves always_failing None
                (-1) 1 30 ["Exception"] true Hn) as H.
  cbv zeta in H. destruct H as (Hres & Hcalls & _).
  split; [exact Hres | exact Hcalls].
Defined.

(** C6, as stated: a configuration with [max_retries < 0], [base_delay <= 0]
    or [max_delay <= 0] is rejected before any attempt runs. This fails:
    with [base_delay = 0] an operation that succeeds is called and its
    value returned. *)
Lemma configuration_is_validated_counterexample :
  ~ (forall (rng : nat -> Q) (func : callable) (logger : option Logger)
            (max_retries : Z) (base_delay max_delay : Q)
            (exceptions : list string) (jitter : bool),
        invalid_config max_retries base_delay max_delay ->
        rejected_before_any_attempt
          (retry_with_backoff rng func logger max_retries base_delay max_delay
             exceptions jitter)).
Proof.
  intros H.
  assert (Hbad : invalid_config 3 0 30) by (right; left; discriminate).
  destruct (H halves succeeding None 3%Z 0 30 ["Exception"] false Hbad)
    as [[e He] _].
  vm_compute in He. discriminate He.
Qed.

(** C6, amended. The parameters are not validated, and no configuration is
    rejected before the first attempt: with [max_retries < 0] the function
    returns [None] without calling the operation; with [max_retries >= 0]
    the first thing it does is to call the operation, and if that call
    returns, its value is returned, whatever [base_delay] and [max_delay]
    are. *)
Theorem configuration_is_not_validated
    (rng : nat -> Q) (func : callable) (logger : option Logger)
    (max_retries : Z) (base_delay max_delay : Q) (exceptions : list string)
    (jitter : bool) :
  let out := retry_with_backoff rng func logger max_retries base_delay
               max_delay exceptions jitter in
  ~ rejected_before_any_attempt out /\
  ((max_retries < 0)%Z -> out = (Return VNone, init_world)) /\
  ((0 <= max_retries)%Z ->
   (exists tr, trace (snd out) = Call 0 :: tr) /\
   (forall v, call func 0 = Return v ->
              out = (Return v, mkWorld 1 0 [Call 0]))).
Proof.
  intros out. subst out. unfold retry_with_backoff.
  assert (Hneg : (max_retries < 0)%Z ->
                 retry_loop rng func logger max_retries base_delay max_delay
                   exceptions jitter 0 init_world = (Return VNone, init_world))
    by apply run_not_entered.
  assert (Hpos : (0 <= max_retries)%Z ->
                 exists tr,
                   trace (snd (retry_loop rng func logger max_retries
                                 base_delay max_delay exceptions jitter 0
                                 init_world)) = Call 0 :: tr /\
                   (1 <= calls (snd (retry_loop rng func logger max_retries
                                       base_delay max_delay exceptions jitter
                                       0 init_world)))%nat)
    by apply run_starts_with_call.
  split; [|split].
  - intros [[e He] Hcalls].
    destruct (Z.lt_ge_cases max_retries 0) as [Hlt|Hge].
    + rewrite (Hneg Hlt) in He. discriminate He.
    + destruct (Hpos Hge) as (tr & _ & Hc). lia.
  - exact Hneg.
  - intros Hge. split.
    + destruct (Hpos Hge) as (tr & Htr & _). exists tr. exact Htr.
    + intros v Hret.
      rewrite (run_success rng func logger max_retries base_delay max_delay
                 exceptions jitter (fun _ => boom) 0 v);
        [destruct jitter; reflexivity | exact Hge | intros i Hi; lia
         | exact Hret].
Qed.

Lemma configuration_is_not_validated_witness :
  retry_with_backoff halves succeeding None 3 0 (-1) ["Exception"] true
  = (Return (VInt 42), mkWorld 1 0 [Call 0]).
Proof.
  assert (Hge : (0 <= 3)%Z) by lia.
  assert (Hret : call succeeding 0 = Return (VInt 42)) by reflexivity.
  exact (proj2 (proj2 (proj2 (configuration_is_not_validated halves succeeding
                                None 3 0 (-1) ["Exception"] true)) Hge)
           (VInt 42) Hret).
Defined.

(** C7. Whatever the operation does, the run without a logger is the run
    with a logger in which each [logger.warning(msg)] and
    [logger.error(msg)] is replaced by [print(msg)] of the same text: the
    result, the calls and the sleeps are the same, and the lines printed
    are the texts of the log records, in the same order. With a logger
    nothing is printed; without one nothing is logged. *)
Theorem absent_logger_prints_the_same_messages
    (rng : nat -> Q) (func : callable) (lg : Logger)
    (max_retries : Z) (base_delay max_delay : Q) (exceptions : list string)
    (jitter : bool) :
  let logged := retry_with_backoff rng func (Some lg) max_retries base_delay
                  max_delay exceptions jitter in
  let plain := retry_with_backoff rng func None max_retries base_delay
                 max_delay exceptions jitter in
  fst plain = fst logged /\
  trace (snd plain) = map unlogged (trace (snd logged)) /\
  printed (trace (snd plain)) = map snd (log_records (trace (snd logged))) /\
  messages (trace (snd plain)) = messages (trace (snd logged)) /\
  printed (trace (snd logged)) = [] /\
  log_records (trace (snd plain)) = [] /\
  sleeps (trace (snd plain)) = sleeps (trace (snd logged)) /\
  calls (snd plain) = calls (snd logged).
Proof.
  intros logged plain.
  assert (Hsim : plain = (fst logged, unlog_world (snd logged)))
    by (apply (retry_loop_unlogged rng func lg max_retries base_delay max_delay
                 exceptions jitter 0 init_world)).
  assert (Hnp : printed (trace (snd logged)) = [])
    by (apply (retry_loop_logger_prints_nothing rng func lg max_retries
                 base_delay max_delay exceptions jitter 0 init_world)).
  rewrite Hsim. cbn [fst snd unlog_world trace calls].
  rewrite printed_unlogged, sleeps_unlogged, log_records_unlogged,
    messages_unlogged.
  repeat split; try assumption.
  apply messages_log_records. exact Hnp.
Qed.

(** C10. Without jitter the random source plays no part: two runs that
    differ only in the random source end with the same result and the same
    world (the same calls, messages and sleeps in the same order), and no
    random value is drawn. *)
Theorem no_jitter_ignores_the_random_source
    (rng1 rng2 : nat -> Q) (func : callable) (logger : option Logger)
    (max_retries : Z) (base_delay max_delay : Q) (exceptions : list string) :
  let out1 := retry_with_backoff rng1 func logger max_retries base_delay
                max_delay exceptions false in
  let out2 := retry_with_backoff rng2 func logger max_retries base_delay
                max_delay exceptions false in
  fst out1 = fst out2 /\
  sleeps (trace (snd out1)) = sleeps (trace (snd out2)) /\
  out1 = out2 /\
  draws (snd out1) = 0%nat /\
  randoms (trace (snd out1)) = [].
Proof.
  intros out1 out2.
  assert (Heq : out2 = out1)
    by (apply (retry_loop_rng_irrelevant func logger max_retries base_delay
                 max_delay exceptions rng1 rng2 0 init_world)).
  destruct (retry_loop_no_draw func logger max_retries base_delay max_delay
              exceptions rng1 0 init_world) as [Hd Hr].
  rewrite Heq. repeat split; assumption.
Qed.

(** C8, as stated: whatever fetching and parsing do, [get_ndaq_tickers]
    returns a list, and that list is the hardcoded one when an exception
    was raised. This fails for an exception that is not an [Exception],
    such as the [KeyboardInterrupt] of a user who stops the download: the
    [except Exception] clause does not catch it and it leaves the
    function. *)
Lemma get_ndaq_tickers_never_raises_counterexample :
  ~ (forall page : pyresult (list table),
        exists l, fst (get_ndaq_tickers page) = Return l /\
                  (forall e, page = Raise e -> l = get_ndaq_tickers_fallback)).
Proof.
  intros H. destruct (H (Raise interrupt)) as (l & Hres & _).
  discriminate Hres.
Qed.

(** C8, amended. When the page is parsed, [get_ndaq_tickers] returns the
    sorted, duplicate-free list of the cells kept if and only if the length
    of that list is between 80 and 120, and the hardcoded list of
    [get_ndaq_tickers_fallback] otherwise. When fetching or parsing raises
    an instance of [Exception], it returns the hardcoded list. An exception
    that is not an instance of [Exception] is not caught: it leaves the
    function, nothing is printed, and this is the only way in which the
    function raises. *)
Theorem get_ndaq_tickers_scraped_or_fallback (page : pyresult (list table)) :
  let result := fst (get_ndaq_tickers page) in
  (forall tables, page = Return tables ->
     let scraped := sorted_set (collect_tickers tables) in
     Sorted String_as_OT.lt scraped /\
     NoDup scraped /\
     (forall x, In x scraped <-> In x (collect_tickers tables)) /\
     (result = Return scraped <-> (80 <= List.length scraped <= 120)%nat) /\
     (~ (80 <= List.length scraped <= 120)%nat ->
      result = Return get_ndaq_tickers_fallback)) /\
  (forall e, page = Raise e -> isinstance e ["Exception"] = true ->
     result = Return get_ndaq_tickers_fallback) /\
  (forall e, page = Raise e -> isinstance e ["Exception"] = false ->
     get_ndaq_tickers page = (Raise e, [])) /\
  ((exists l, result = Return l) <->
   (forall e, page = Raise e -> isinstance e ["Exception"] = true)).
Proof.
  intros result.
  assert (Hparsed : forall tables, page = Return tables ->
            let scraped := sorted_set (collect_tickers tables) in
            ((80 <= List.length scraped <= 120)%nat ->
             result = Return scraped) /\
            (~ (80 <= List.length scraped <= 120)%nat ->
             result = Return get_ndaq_tickers_fallback)).
  { intros tables Hp scraped. subst result page. cbn [get_ndaq_tickers].
    fold scraped.
    destruct (Nat.leb_spec 80 (List.length scraped)) as [Hlo|Hlo];
      destruct (Nat.leb_spec (List.length scraped) 120) as [Hhi|Hhi];
      cbn [andb fst]; split; intros H; try reflexivity; lia. }
  assert (Hcaught : forall e, page = Raise e ->
                              isinstance e ["Exception"] = true ->
                              result = Return get_ndaq_tickers_fallback).
  { intros e Hp He. subst result page. cbn [get_ndaq_tickers].
    rewrite He. reflexivity. }
  assert (Hescapes : forall e, page = Raise e ->
                               isinstance e ["Exception"] = false ->
                               get_ndaq_tickers page = (Raise e, [])).
  { intros e Hp He. subst page. cbn [get_ndaq_tickers].
    rewrite He. reflexivity. }
  split; [|split; [exact Hcaught | split; [exact Hescapes|]]].
  - intros tables Hp scraped.
    destruct (Hparsed tables Hp) as [Hin Hout]. fold scraped in Hin, Hout.
    split; [apply sorted_set_Sorted|].
    split; [apply Sorted_lt_NoDup, sorted_set_Sorted|].
    split; [intros x; apply sorted_set_In|].
    split; [|exact Hout].
    split; [|exact Hin].
    intros Hres.
    destruct (Nat.le_gt_cases 80 (List.length scraped)) as [Hlo|Hlo];
      [destruct (Nat.le_gt_cases (List.length scraped) 120) as [Hhi|Hhi]|];
      try lia.
    + rewrite Hout in Hres by lia. injection Hres as Hres.
      rewrite <- Hres, fallback_length in Hhi. lia.
    + rewrite Hout in Hres by lia. injection Hres as Hres.
      rewrite <- Hres, fallback_length in Hlo. lia.
  - split.
    + intros (l & Hres) e Hp.
      destruct (isinstance e ["Exception"]) eqn:He; [reflexivity|].
      unfold result in Hres. rewrite (Hescapes e Hp He) in Hres.
      discriminate Hres.
    + intros Hexc. destruct page as [tables|e].
      * destruct (Hparsed tables eq_refl) as [Hin Hout].
        destruct (Nat.le_gt_cases 80
                    (List.length (sorted_set (collect_tickers tables))))
          as [Hlo|Hlo];
          [destruct (Nat.le_gt_cases
                       (List.length (sorted_set (collect_tickers tables))) 120)
             as [Hhi|Hhi]|].
        -- eexists. apply Hin. lia.
        -- eexists. apply Hout. lia.
        -- eexists. apply Hout. lia.
      * eexists. apply (Hcaught e eq_refl). apply Hexc. reflexivity.
Qed.

Lemma get_ndaq_tickers_scraped_or_fallback_witness :
  fst (get_ndaq_tickers (Return [[get_ndaq_tickers_fallback]]))
  = Return (sorted_set (collect_tickers [[get_ndaq_tickers_fallback]])) /\
  fst (get_ndaq_tickers (Raise boom)) = Return get_ndaq_tickers_fallback /\
  get_ndaq_tickers (Raise interrupt) = (Raise interrupt, []).
Proof.
  split; [|split].
  - pose proof (get_ndaq_tickers_scraped_or_fallback
                  (Return [[get_ndaq_tickers_fallback]])) as H.
    cbv zeta in H. destruct H as (Hparsed & _).
    destruct (Hparsed [[get_ndaq_tickers_fallback]] eq_refl)
      as (_ & _ & _ & [_ Hin] & _).
    apply Hin. vm_compute. split; apply Nat.leb_le; reflexivity.
  - pose proof (get_ndaq_tickers_scraped_or_fallback (Raise boom)) as H.
    cbv zeta in H. destruct H as (_ & Hcaught & _).
    apply (Hcaught boom eq_refl). reflexivity.
  - pose proof (get_ndaq_tickers_scraped_or_fallback (Raise interrupt)) as H.
    cbv zeta in H. destruct H as (_ & _ & Hescapes & _).
    apply (Hescapes interrupt eq_refl). reflexivity.
Defined.

(** * Further properties of [retry_with_backoff] *)

Section RunShape.

Variable rng : nat -> Q.
Variable func : callable.
Variable logger : option Logger.
Variable max_retries : Z.
Variables base_delay max_delay : Q.
Variable exceptions : list string.
Variable jitter : bool.

Local Abbreviation retry_loop :=
  (retry_loop rng func logger max_retries base_delay max_delay exceptions jitter).
Local Abbreviation try_once :=
  (try_once rng func logger max_retries base_delay max_delay exceptions jitter).
Local Abbreviation log_event := (log_event logger).
Local Abbreviation delay_at := (delay_at rng base_delay max_delay jitter).
Local Abbreviation msg_attempt := (msg_attempt func).
Local Abbreviation retries_trace :=
  (retries_trace rng func logger base_delay max_delay jitter).
Local Abbreviation world_after :=
  (world_after rng func logger base_delay max_delay jitter).
Local Abbreviation retried_until :=
  (retried_until rng func base_delay max_delay exceptions jitter).
Local Abbreviation run_ends :=
  (run_ends rng func logger max_retries base_delay max_delay exceptions jitter).

Lemma raised_eq (i : nat) (e : exn) :
  call func i = Raise e -> raised func i = e.
Proof. intros H. unfold raised. rewrite H. reflexivity. Qed.

(** A matched failure before the last attempt whose delay is negative:
    the warning is written, then [time.sleep] raises. *)
Lemma try_once_sleep_refused (err : nat -> exn) (k : nat) :
  call func k = Raise (err k) ->
  isinstance (err k) exceptions = true ->
  Z.of_nat k <> max_retries ->
  delay_at k < 0 ->
  try_once (Z.of_nat k) (world_after err k) =
  inl (Raise ValueError_sleep,
       mkWorld (S k) (if jitter then S k else 0%nat)
         (retries_trace err k
            ++ [Call k] ++ (if jitter then [Random (rng k)] else [])
            ++ [log_event WARNING (msg_attempt (Z.of_nat k) (err k) (delay_at k))])).
Proof.
  intros Hc He Hk Hd.
  assert (Hb : Qle_bool 0 (delay_at k) = false).
  { destruct (Qle_bool 0 (delay_at k)) eqn:E; [|reflexivity].
    apply Qle_bool_iff in E. exfalso. exact (Qlt_not_le _ _ Hd E). }
  unfold try_once, invoke, world_after. cbn [calls draws trace].
  rewrite Hc, He. unfold except_body.
  apply Z.eqb_neq in Hk. rewrite Hk.
  unfold delay_at in *.
  destruct jitter; cbn [random_random calls draws trace];
    rewrite log_or_print_emit; unfold time_sleep; rewrite Hb;
    unfold emit; cbn [calls draws trace];
    rewrite <- !app_assoc; reflexivity.
Qed.

Lemma retried_until_S (k : nat) (e : exn) :
  retried_until k ->
  call func k = Raise e -> isinstance e exceptions = true ->
  0 <= delay_at k ->
  retried_until (S k).
Proof.
  intros Hk Hc He Hd i Hi.
  destruct (Nat.eq_dec i k) as [->|Hne].
  - rewrite (raised_eq k e Hc). auto.
  - apply Hk. lia.
Qed.

(** Every run ends in one of the five ways. *)
Lemma run_ends_from (m k : nat) :
  m = Z.to_nat (max_retries - Z.of_nat k) ->
  (Z.of_nat k <= max_retries)%Z ->
  retried_until k ->
  run_ends (retry_loop (Z.of_nat k) (world_after (raised func) k)).
Proof.
  revert k. induction m as [|m IH]; intros k Hm Hk Hret;
    rewrite retry_loop_eq;
    (replace (Z.of_nat k <=? max_retries)%Z with true
      by (symmetry; apply Z.leb_le; exact Hk));
    destruct (call func k) as [v|e] eqn:Hc.
  all: try (rewrite try_once_returns with (v := v) by exact Hc;
            apply ends_returned; assumption).
  all: pose proof (raised_eq k e Hc) as Hraised;
    destruct (isinstance e exceptions) eqn:He;
    [| rewrite try_once_uncaught with (e := e) by assumption;
       apply ends_unmatched; assumption ].
  - assert (Hlast : Z.of_nat k = max_retries) by lia.
    rewrite <- Hlast at 1.
    rewrite Hlast.
    rewrite try_once_exhausted with (e := e) by assumption.
    apply ends_exhausted; assumption.
  - destruct (Z.eq_dec (Z.of_nat k) max_retries) as [Hlast|Hmore].
    + rewrite Hlast.
      rewrite try_once_exhausted with (e := e) by assumption.
      apply ends_exhausted; assumption.
    + rewrite <- Hraised in Hc, He.
      destruct (Qlt_le_dec (delay_at k) 0) as [Hneg|Hpos].
      * rewrite (try_once_sleep_refused (raised func) k Hc He Hmore Hneg).
        rewrite Hraised. rewrite Hraised in Hc, He.
        apply ends_sleep_refused; try assumption. lia.
      * rewrite (try_once_retried rng func logger max_retries base_delay
                   max_delay exceptions jitter (raised func) k Hc He Hmore Hpos).
        replace (Z.of_nat k + 1)%Z with (Z.of_nat (S k)) by lia.
        apply IH; [lia | lia |].
        apply retried_until_S with (e := raised func k); assumption.
Qed.

Lemma run_ends_total : run_ends (retry_loop 0 init_world).
Proof.
  destruct (Z.lt_ge_cases max_retries 0) as [Hneg|Hpos].
  - rewrite (run_not_entered rng func logger max_retries base_delay max_delay
               exceptions jitter Hneg).
    apply ends_not_entered. exact Hneg.
  - rewrite <- (world_after_0 rng func logger base_delay max_delay jitter
                  (raised func)).
    apply (run_ends_from (Z.to_nat max_retries) 0); [f_equal; lia | exact Hpos |].
    intros i Hi. lia.
Qed.

End RunShape.

(** Projections distribute over the parts of a trace. *)
Lemma sleeps_app (l1 l2 : list event) :
  sleeps (l1 ++ l2) = sleeps l1 ++ sleeps l2.
Proof. apply flat_map_app. Qed.

Lemma invocations_app (l1 l2 : list event) :
  invocations (l1 ++ l2) = invocations l1 ++ invocations l2.
Proof. apply flat_map_app. Qed.

Lemma messages_app (l1 l2 : list event) :
  messages (l1 ++ l2) = messages l1 ++ messages l2.
Proof. apply flat_map_app. Qed.

Lemma log_records_app (l1 l2 : list event) :
  log_records (l1 ++ l2) = log_records l1 ++ log_records l2.
Proof. apply flat_map_app. Qed.

(** The [k] delays of a prefix of retried attempts were all accepted. *)
Lemma retried_until_delays
    (rng : nat -> Q) (func : callable) (base_delay max_delay : Q)
    (exceptions : list string) (jitter : bool) (k : nat) :
  retried_until rng func base_delay max_delay exceptions jitter k ->
  Forall (fun d => 0 <= d)
         (map (delay_at rng base_delay max_delay jitter) (seq 0 k)).
Proof.
  intros Hret. apply Forall_forall. intros d Hd.
  apply in_map_iff in Hd. destruct Hd as (i & <- & Hi).
  apply in_seq in Hi. apply Hret. lia.
Qed.

(** X1. For a policy within the range of Python's arithmetic
    ([max_retries <= 1024], [base_delay] and [max_delay] not below
    [- sleep_limit], [max_delay] not above [sleep_limit]), every run of
    [retry_with_backoff] ends in one of these five ways: the loop is not
    entered ([max_retries < 0]) and [None] is returned; a call returns, and
    its value is returned; a call raises an exception the [except] clause
    does not match, which propagates; the last allowed attempt fails, the
    error message is written and the exception is re-raised; or [time.sleep]
    refuses a negative delay. In each case the whole trace is known: the
    retried attempts, then the events of the last one. *)
Theorem every_run_ends_in_one_of_five_ways
    (rng : nat -> Q) (func : callable) (logger : option Logger)
    (max_retries : Z) (base_delay max_delay : Q) (exceptions : list string)
    (jitter : bool) :
  within_python_range max_retries base_delay max_delay ->
  run_ends rng func logger max_retries base_delay max_delay exceptions jitter
    (retry_with_backoff rng func logger max_retries base_delay max_delay
       exceptions jitter).
Proof. intros _. apply run_ends_total. Qed.

Lemma every_run_ends_in_one_of_five_ways_witness :
  run_ends halves flaky None 5 1 30 ["Exception"] true
    (retry_with_backoff halves flaky None 5 1 30 ["Exception"] true).
Proof.
  assert (Hrange : within_python_range 5 1 30)
    by (repeat split; try lia; vm_compute; discriminate).
  exact (every_run_ends_in_one_of_five_ways halves flaky None 5 1 30
           ["Exception"] true Hrange).
Defined.

(** X2. Whatever the operation does, it is called at most
    [max_retries + 1] times (never when [max_retries < 0]), the calls are
    numbered consecutively, and there is exactly one sleep between two
    consecutive calls and none after the last: the number of sleeps is the
    number of calls less one. *)
Theorem attempts_are_bounded
    (rng : nat -> Q) (func : callable) (logger : option Logger)
    (max_retries : Z) (base_delay max_delay : Q) (exceptions : list string)
    (jitter : bool) :
  let out := retry_with_backoff rng func logger max_retries base_delay
               max_delay exceptions jitter in
  (calls (snd out) <= Z.to_nat (max_retries + 1))%nat /\
  invocations (trace (snd out)) = seq 0 (calls (snd out)) /\
  List.length (sleeps (trace (snd out))) = pred (calls (snd out)).
Proof.
  intros out. subst out. unfold retry_with_backoff.
  destruct (run_ends_total rng func logger max_retries base_delay max_delay
              exceptions jitter) as [Hneg|k v Hk _ _|k e Hk _ _ _|k e Hk _ _ _
                                     |k e Hk _ _ _ _];
    cbn [snd calls trace pred];
    rewrite ?invocations_app, ?sleeps_app, ?invocations_retries,
      ?sleeps_retries, ?length_app, ?length_map, ?length_seq, ?seq_S;
    unfold log_event; destruct logger, jitter; cbn;
    repeat split; try reflexivity; lia.
Qed.

(** X3. With [max_retries >= 0], a value returned by [retry_with_backoff] is
    always the value returned by the last call of the operation, and every
    earlier call raised an exception matched by the [except] clause: the
    function never makes up a result. *)
Theorem returned_value_is_the_last_call
    (rng : nat -> Q) (func : callable) (logger : option Logger)
    (max_retries : Z) (base_delay max_delay : Q) (exceptions : list string)
    (jitter : bool) (v : value) :
  (0 <= max_retries)%Z ->
  let out := retry_with_backoff rng func logger max_retries base_delay
               max_delay exceptions jitter in
  fst out = Return v ->
  exists k,
    calls (snd out) = S k /\
    call func k = Return v /\
    forall i, (i < k)%nat ->
      exists e, call func i = Raise e /\ isinstance e exceptions = true.
Proof.
  intros Hn out. subst out. unfold retry_with_backoff.
  destruct (run_ends_total rng func logger max_retries base_delay max_delay
              exceptions jitter) as [Hneg|k v' Hk Hret Hc|k e Hk _ _ _
                                     |k e Hk _ _ _|k e Hk _ _ _ _];
    cbn [fst snd calls]; intros Hres; try discriminate Hres; try lia.
  injection Hres as ->. exists k. repeat split; try assumption.
  intros i Hi. destruct (Hret i Hi) as (Hci & Hei & _). eauto.
Qed.

Lemma returned_value_is_the_last_call_witness :
  exists k,
    calls (snd (retry_with_backoff halves flaky None 5 1 30 ["Exception"]
                  true)) = S k /\
    call flaky k = Return (VInt 42) /\
    forall i, (i < k)%nat ->
      exists e, call flaky i = Raise e /\ isinstance e ["Exception"] = true.
Proof.
  assert (Hn : (0 <= 5)%Z) by lia.
  assert (Hres : fst (retry_with_backoff halves flaky None 5 1 30
                        ["Exception"] true) = Return (VInt 42))
    by reflexivity.
  exact (returned_value_is_the_last_call halves flaky None 5 1 30
           ["Exception"] true (VInt 42) Hn Hres).
Defined.

(** X4. With [max_retries <= 1024], a non-negative [base_delay], a
    [max_delay] between 0 and [sleep_limit] and, with jitter, random values
    in the unit interval (so that every delay is computed and slept), an
    exception that leaves [retry_with_backoff] is always the one raised by
    the last call of the operation, and that call either was the last
    allowed attempt or raised an exception the [except] clause does not
    match. *)
Theorem raised_exception_is_the_last_call
    (rng : nat -> Q) (func : callable) (logger : option Logger)
    (max_retries : Z) (base_delay max_delay : Q) (exceptions : list string)
    (jitter : bool) (e : exn) :
  within_python_range max_retries base_delay max_delay ->
  0 <= base_delay -> 0 <= max_delay ->
  (jitter = true -> forall i, 0 <= rng i < 1) ->
  let out := retry_with_backoff rng func logger max_retries base_delay
               max_delay exceptions jitter in
  fst out = Raise e ->
  exists k,
    calls (snd out) = S k /\
    call func k = Raise e /\
    (isinstance e exceptions = false \/
     isinstance e exceptions = true /\ Z.of_nat k = max_retries).
Proof.
  intros _ Hb Hm Hr out. subst out. unfold retry_with_backoff.
  destruct (run_ends_total rng func logger max_retries base_delay max_delay
              exceptions jitter) as [Hneg|k v' Hk Hret Hc|k e' Hk _ Hc He
                                     |k e' Hk _ Hc He|k e' Hk _ _ _ Hd];
    cbn [fst snd calls]; intros Hres; try discriminate Hres.
  - injection Hres as ->. exists k. auto.
  - injection Hres as ->. exists k. auto.
  - exfalso. apply (Qlt_not_le _ _ Hd).
    apply delay_at_nonneg; assumption.
Qed.

Lemma raised_exception_is_the_last_call_witness :
  exists k,
    calls (snd (retry_with_backoff halves always_failing None 2 1 30
                  ["Exception"] true)) = S k /\
    call always_failing k = Raise boom /\
    (isinstance boom ["Exception"] = false \/
     isinstance boom ["Exception"] = true /\ Z.of_nat k = 2%Z).
Proof.
  assert (Hb : 0 <= 1) by discriminate.
  assert (Hm : 0 <= 30) by discriminate.
  assert (Hr : true = true -> forall i, 0 <= halves i < 1)
    by (intros _ i; split; [discriminate | reflexivity]).
  assert (Hres : fst (retry_with_backoff halves always_failing None 2 1 30
                        ["Exception"] true) = Raise boom)
    by reflexivity.
  assert (Hrange : within_python_range 2 1 30)
    by (repeat split; try lia; vm_compute; discriminate).
  exact (raised_exception_is_the_last_call halves always_failing None 2 1 30
           ["Exception"] true boom Hrange Hb Hm Hr Hres).
Defined.

(** X5. With a logger, an error record is written if and only if the run
    ends by exhaustion: the operation was called [max_retries + 1] times and
    the function raises an exception that the [except] clause matches.
    There is never more than one error record. *)
Theorem error_logged_iff_exhausted
    (rng : nat -> Q) (func : callable) (lg : Logger)
    (max_retries : Z) (base_delay max_delay : Q) (exceptions : list string)
    (jitter : bool) :
  let out := retry_with_backoff rng func (Some lg) max_retries base_delay
               max_delay exceptions jitter in
  ((exists msg, In (ERROR, msg) (log_records (trace (snd out)))) <->
   (exists e, fst out = Raise e /\ isinstance e exceptions = true /\
              Z.of_nat (calls (snd out)) = (max_retries + 1)%Z)) /\
  (List.length (filter is_error (log_records (trace (snd out)))) <= 1)%nat.
Proof.
  intros out. subst out. unfold retry_with_backoff.
  assert (Hwarn : forall k msg,
            ~ In (ERROR, msg)
                 (log_records
                    (retries_trace rng func (Some lg) base_delay max_delay
                       jitter (raised func) k))).
  { intros k msg Hin. rewrite log_records_retries in Hin.
    apply in_map_iff in Hin. destruct Hin as (i & Hi & _). discriminate Hi. }
  assert (Hnone : forall k,
            filter is_error
              (log_records
                 (retries_trace rng func (Some lg) base_delay max_delay
                    jitter (raised func) k)) = []).
  { intros k. rewrite log_records_retries.
    induction (seq 0 k) as [|i l IH]; [reflexivity | exact IH]. }
  destruct (run_ends_total rng func (Some lg) max_retries base_delay max_delay
              exceptions jitter) as [Hneg|k v' Hk Hret Hc|k e' Hk _ Hc He
                                     |k e' Hk _ Hc He|k e' Hk _ _ _ Hd];
    cbn [fst snd calls trace];
    rewrite ?log_records_app, ?filter_app, ?Hnone; (split; [split|]).
  all: try (intros (msg & Hin); exfalso;
            repeat (apply in_app_or in Hin; destruct Hin as [Hin|Hin]);
            try (apply (Hwarn _ _ Hin));
            destruct jitter; cbn in Hin; intuition discriminate).
  all: try (intros (e & Hres & He' & Hcalls); exfalso;
            try discriminate Hres;
            try (injection Hres as <-; congruence); cbn in Hcalls; lia).
  all: try (destruct jitter; cbn; lia).
  - intros _. exists e'. repeat split; [exact He | lia].
  - intros _. eexists. apply in_or_app. right. cbn. left. reflexivity.
Qed.

(** X6. With [max_retries <= 1024], a non-negative [base_delay], a
    [max_delay] between 0 and [sleep_limit] and, with jitter, random values
    in the unit interval, an exception that the [except] clause does not
    match propagates at once at whatever attempt it occurs: after [k]
    retried failures, a call raising an unmatched exception ends the run
    with that exception, after [k + 1] calls and [k] sleeps; the messages
    are the [k] warnings of the retried attempts, and no "Max retries
    reached" message is written. *)
Theorem unmatched_failure_after_retries
    (rng : nat -> Q) (func : callable) (logger : option Logger)
    (max_retries : Z) (base_delay max_delay : Q) (exceptions : list string)
    (jitter : bool) (err : nat -> exn) (k : nat) (e : exn) :
  (Z.of_nat k <= max_retries)%Z ->
  within_python_range max_retries base_delay max_delay ->
  0 <= base_delay -> 0 <= max_delay ->
  (jitter = true -> forall i, 0 <= rng i < 1) ->
  (forall i, (i < k)%nat ->
             call func i = Raise (err i) /\
             isinstance (err i) exceptions = true) ->
  call func k = Raise e ->
  isinstance e exceptions = false ->
  let out := retry_with_backoff rng func logger max_retries base_delay
               max_delay exceptions jitter in
  fst out = Raise e /\
  calls (snd out) = S k /\
  (exists before, trace (snd out) = before ++ [Call k]) /\
  sleeps (trace (snd out)) =
    map (delay_at rng base_delay max_delay jitter) (seq 0 k) /\
  messages (trace (snd out)) =
    map (fun i => msg_attempt func (Z.of_nat i) (err i)
                    (delay_at rng base_delay max_delay jitter i)) (seq 0 k).
Proof.
  intros Hk _ Hb Hm Hr Hfail Hc He out. subst out. unfold retry_with_backoff.
  rewrite (run_uncaught rng func logger max_retries base_delay max_delay
             exceptions jitter err k e Hk); try assumption.
  - cbn [fst snd calls trace].
    rewrite sleeps_app, messages_app, sleeps_retries, messages_retries.
    cbn. rewrite !app_nil_r. repeat split. eexists. reflexivity.
  - intros i Hi. destruct (Hfail i Hi) as [Hci Hei].
    repeat split; try assumption. apply delay_at_nonneg; assumption.
Qed.

Lemma unmatched_failure_after_retries_witness :
  fst (retry_with_backoff halves
         (mkCallable "fetch"
            (fun i => if (i <? 2)%nat then Raise boom else Raise interrupt))
         None 5 1 30 ["Exception"] false) = Raise interrupt /\
  calls (snd (retry_with_backoff halves
         (mkCallable "fetch"
            (fun i => if (i <? 2)%nat then Raise boom else Raise interrupt))
         None 5 1 30 ["Exception"] false)) = 3%nat.
Proof.
  assert (Hk : (Z.of_nat 2 <= 5)%Z) by (cbn; lia).
  assert (Hb : 0 <= 1) by discriminate.
  assert (Hm : 0 <= 30) by discriminate.
  assert (Hr : false = true -> forall i, 0 <= halves i < 1)
    by (intros H; discriminate H).
  assert (Hfail : forall i, (i < 2)%nat ->
            call (mkCallable "fetch"
                    (fun i => if (i <? 2)%nat then Raise boom
                              else Raise interrupt)) i
            = Raise ((fun _ => boom) i) /\
            isinstance ((fun _ => boom) i) ["Exception"] = true).
  { intros i Hi. split; [|reflexivity].
    cbn [call]. apply Nat.ltb_lt in Hi. rewrite Hi. reflexivity. }
  assert (Hc : call (mkCallable "fetch"
                       (fun i => if (i <? 2)%nat then Raise boom
                                 else Raise interrupt)) 2
               = Raise interrupt) by reflexivity.
  assert (He : isinstance interrupt ["Exception"] = false) by reflexivity.
  assert (Hrange : within_python_range 5 1 30)
    by (repeat split; try lia; vm_compute; discriminate).
  pose proof (unmatched_failure_after_retries halves _ None 5 1 30
                ["Exception"] false (fun _ => boom) 2 interrupt
                Hk Hrange Hb Hm Hr Hfail Hc He) as H.
  cbv zeta in H. destruct H as (Hres & Hcalls & _).
  split; [exact Hres | exact Hcalls].
Defined.



(** *** Bounds on the delays *)

Lemma Qmult_neg_nonneg (x y : Q) : x < 0 -> 0 <= y -> x * y <= 0.
Proof.
  intros Hx Hy.
  assert (H0 : 0 <= (- x) * y) by (apply Qmult_le_0_compat; [lra | exact Hy]).
  assert (E : (- x) * y == - (x * y)) by ring.
  rewrite E in H0. lra.
Qed.

Lemma delay_at_le_max
    (rng : nat -> Q) (base_delay max_delay : Q) (jitter : bool) (i : nat) :
  (jitter = true -> 0 <= rng i < 1) ->
  0 <= delay_at rng base_delay max_delay jitter i ->
  delay_at rng base_delay max_delay jitter i <= max_delay.
Proof.
  unfold delay_at. intros Hr Hd.
  assert (Hmax : raw_delay base_delay max_delay (Z.of_nat i) <= max_delay)
    by apply Q.le_min_l.
  destruct jitter; [|exact Hmax].
  specialize (Hr eq_refl).
  destruct (Qlt_le_dec (raw_delay base_delay max_delay (Z.of_nat i)) 0)
    as [Hneg|Hpos].
  - exfalso. unfold jittered in Hd.
    pose proof (Qmult_neg_nonneg _ _ Hneg (proj1 Hr)) as Hprod.
    assert (E : raw_delay base_delay max_delay (Z.of_nat i)
                * ((1 # 2) + rng i / 2)
                == (1 # 2) * raw_delay base_delay max_delay (Z.of_nat i)
                   + (1 # 2) * (raw_delay base_delay max_delay (Z.of_nat i)
                                * rng i))
      by field.
    rewrite E in Hd. lra.
  - destruct (jittered_bounds _ (rng i) Hpos Hr) as [_ Hhi].
    apply Qle_trans with (raw_delay base_delay max_delay (Z.of_nat i));
      assumption.
Qed.

Lemma total_le (m : Q) (l : list Q) :
  Forall (fun d => d <= m) l ->
  total l <= inject_Z (Z.of_nat (List.length l)) * m.
Proof.
  induction 1 as [|d l Hd Hl IH]; cbn [total fold_right List.length].
  - cbn. rewrite Qmult_0_l. apply Qle_refl.
  - fold (total l). rewrite Nat2Z.inj_succ. unfold Z.succ.
    rewrite inject_Z_plus.
    setoid_replace ((inject_Z (Z.of_nat (List.length l)) + inject_Z 1) * m)
      with (inject_Z (Z.of_nat (List.length l)) * m + m) by ring.
    lra.
Qed.

(** The sleeps of every run: the delays of the retried attempts. *)
Lemma run_ends_sleeps
    (rng : nat -> Q) (func : callable) (logger : option Logger)
    (max_retries : Z) (base_delay max_delay : Q) (exceptions : list string)
    (jitter : bool) :
  exists k,
    (k <= Z.to_nat max_retries)%nat /\
    retried_until rng func base_delay max_delay exceptions jitter k /\
    sleeps (trace (snd (retry_with_backoff rng func logger max_retries
                          base_delay max_delay exceptions jitter)))
    = map (delay_at rng base_delay max_delay jitter) (seq 0 k).
Proof.
  unfold retry_with_backoff.
  destruct (run_ends_total rng func logger max_retries base_delay max_delay
              exceptions jitter) as [Hneg|k v' Hk Hret _|k e' Hk Hret _ _
                                     |k e' Hk Hret _ _|k e' Hk Hret _ _ _];
    [exists 0%nat | exists k ..]; cbn [snd trace];
    rewrite ?sleeps_app, ?sleeps_retries; unfold log_event;
    (split; [lia|]); (split; [try exact Hret; intros i Hi; lia|]);
    destruct logger, jitter; cbn; rewrite ?app_nil_r; reflexivity.
Qed.

(** X8. With random values in the unit interval, every delay slept in any
    run lies between 0 and [max_delay], there are at most [max_retries] of
    them, and so the time slept in all is at most the number of sleeps times
    [max_delay]. *)
Theorem sleeps_are_within_bounds
    (rng : nat -> Q) (func : callable) (logger : option Logger)
    (max_retries : Z) (base_delay max_delay : Q) (exceptions : list string)
    (jitter : bool) :
  (jitter = true -> forall i, 0 <= rng i < 1) ->
  let slept := sleeps (trace (snd (retry_with_backoff rng func logger
                                     max_retries base_delay max_delay
                                     exceptions jitter))) in
  Forall (fun d => 0 <= d <= max_delay) slept /\
  (List.length slept <= Z.to_nat max_retries)%nat /\
  total slept <= inject_Z (Z.of_nat (List.length slept)) * max_delay.
Proof.
  intros Hr slept.
  destruct (run_ends_sleeps rng func logger max_retries base_delay max_delay
              exceptions jitter) as (k & Hk & Hret & Hs).
  fold slept in Hs.
  assert (Hall : Forall (fun d => 0 <= d <= max_delay) slept).
  { rewrite Hs. apply Forall_forall. intros d Hd.
    apply in_map_iff in Hd. destruct Hd as (i & <- & Hi).
    apply in_seq in Hi. destruct (Hret i) as (_ & _ & Hpos); [lia|].
    split; [exact Hpos|]. apply delay_at_le_max; [|exact Hpos].
    intros Hj. apply Hr. exact Hj. }
  split; [exact Hall|]. split.
  - rewrite Hs, length_map, length_seq. exact Hk.
  - apply total_le. eapply Forall_impl; [|exact Hall].
    intros d [_ Hd]. exact Hd.
Qed.

Lemma sleeps_are_within_bounds_witness :
  Forall (fun d => 0 <= d <= 15)
    (sleeps (trace (snd (retry_with_backoff halves always_failing None 3 10 15
                           ["Exception"] true)))).
Proof.
  assert (Hr : true = true -> forall i, 0 <= halves i < 1)
    by (intros _ i; split; [discriminate | reflexivity]).
  exact (proj1 (sleeps_are_within_bounds halves always_failing None 3 10 15
                  ["Exception"] true Hr)).
Defined.

Lemma raw_delay_le_base (base_delay max_delay : Q) :
  raw_delay base_delay max_delay 0 <= base_delay.
Proof.
  unfold raw_delay.
  apply Qle_trans with (base_delay * inject_Z (2 ^ 0)); [apply Q.le_min_r|].
  cbn. rewrite Qmult_1_r. apply Qle_refl.
Qed.

Lemma scaled_base_mono (base_delay : Q) (a b : Z) :
  0 <= base_delay -> (0 <= a <= b)%Z ->
  base_delay * inject_Z (2 ^ a) <= base_delay * inject_Z (2 ^ b).
Proof.
  intros Hb Hab. rewrite !(Qmult_comm base_delay).
  apply Qmult_le_compat_r; [|exact Hb].
  rewrite <- Zle_Qle. apply Z.pow_le_mono_r; lia.
Qed.

Lemma raw_delay_mono (base_delay max_delay : Q) (a : Z) :
  0 <= base_delay -> (0 <= a)%Z ->
  raw_delay base_delay max_delay a <= raw_delay base_delay max_delay (a + 1).
Proof.
  intros Hb Ha. unfold raw_delay.
  apply Q.min_le_compat_l. apply scaled_base_mono; [exact Hb | lia].
Qed.

Lemma Sorted_map_seq (f : nat -> Q) (a k : nat) :
  (forall i, f i <= f (S i)) -> Sorted Qle (map f (seq a k)).
Proof.
  intros Hf. revert a. induction k as [|k IH]; intros a; cbn [seq map].
  - constructor.
  - constructor; [apply IH|].
    destruct k; cbn [seq map]; constructor. apply Hf.
Qed.

(** X9. Without jitter the delays slept in a run never decrease from one
    attempt to the next. *)
Theorem delays_never_decrease
    (rng : nat -> Q) (func : callable) (logger : option Logger)
    (max_retries : Z) (base_delay max_delay : Q) (exceptions : list string) :
  Sorted Qle
    (sleeps (trace (snd (retry_with_backoff rng func logger max_retries
                           base_delay max_delay exceptions false)))).
Proof.
  destruct (run_ends_sleeps rng func logger max_retries base_delay max_delay
              exceptions false) as (k & _ & Hret & Hs).
  rewrite Hs. destruct k as [|k]; [constructor|].
  assert (Hb : 0 <= base_delay).
  { destruct (Hret 0%nat) as (_ & _ & Hd); [lia|].
    apply Qle_trans with (raw_delay base_delay max_delay 0);
      [exact Hd | apply raw_delay_le_base]. }
  apply Sorted_map_seq. intros i. unfold delay_at.
  replace (Z.of_nat (S i)) with (Z.of_nat i + 1)%Z by lia.
  apply raw_delay_mono; [exact Hb | lia].
Qed.

(** X10. When [max_delay] is not larger than [base_delay], the backoff does
    not grow: without jitter every delay slept equals [max_delay]. *)
Theorem clamped_policy_sleeps_max_delay
    (rng : nat -> Q) (func : callable) (logger : option Logger)
    (max_retries : Z) (base_delay max_delay : Q) (exceptions : list string) :
  max_delay <= base_delay ->
  Forall (fun d => d == max_delay)
    (sleeps (trace (snd (retry_with_backoff rng func logger max_retries
                           base_delay max_delay exceptions false)))).
Proof.
  intros Hclamp.
  destruct (run_ends_sleeps rng func logger max_retries base_delay max_delay
              exceptions false) as (k & _ & Hret & Hs).
  rewrite Hs. apply Forall_forall. intros d Hd.
  apply in_map_iff in Hd. destruct Hd as (i & <- & Hi). apply in_seq in Hi.
  destruct (Hret i) as (_ & _ & Hpos); [lia|].
  unfold delay_at in *. unfold raw_delay in *.
  assert (Hm : 0 <= max_delay)
    by (apply Qle_trans with (Qmin max_delay
                                (base_delay * inject_Z (2 ^ Z.of_nat i)));
        [exact Hpos | apply Q.le_min_l]).
  assert (Hb : 0 <= base_delay) by (apply Qle_trans with max_delay; assumption).
  apply Q.min_l.
  apply Qle_trans with base_delay; [exact Hclamp|].
  apply Qle_trans with (base_delay * inject_Z (2 ^ 0)).
  - cbn. rewrite Qmult_1_r. apply Qle_refl.
  - apply scaled_base_mono; [exact Hb | lia].
Qed.

Lemma clamped_policy_sleeps_max_delay_witness :
  Forall (fun d => d == 5)
    (sleeps (trace (snd (retry_with_backoff halves always_failing None 3 10 5
                           ["Exception"] false)))).
Proof.
  assert (Hclamp : 5 <= 10) by discriminate.
  exact (clamped_policy_sleeps_max_delay halves always_failing None 3 10 5
           ["Exception"] Hclamp).
Defined.

(** X11. Allowing more retries does not change a run that succeeded: if
    with [max_retries = n >= 0] the function returns a value, then with any
    larger [max_retries] it returns the same value after the same calls,
    messages and sleeps. *)
Theorem more_retries_keep_a_success
    (rng : nat -> Q) (func : callable) (logger : option Logger)
    (n n' : Z) (base_delay max_delay : Q) (exceptions : list string)
    (jitter : bool) (v : value) :
  (0 <= n <= n')%Z ->
  fst (retry_with_backoff rng func logger n base_delay max_delay exceptions
         jitter) = Return v ->
  retry_with_backoff rng func logger n' base_delay max_delay exceptions jitter
  = retry_with_backoff rng func logger n base_delay max_delay exceptions
      jitter.
Proof.
  intros Hn. unfold retry_with_backoff.
  destruct (run_ends_total rng func logger n base_delay max_delay
              exceptions jitter) as [Hneg|k v' Hk Hret Hc|k e' Hk _ _ _
                                     |k e' Hk _ _ _|k e' Hk _ _ _ _];
    cbn [fst]; intros Hres; try discriminate Hres; try lia.
  apply (run_success rng func logger n' base_delay max_delay exceptions jitter
           (raised func) k v'); [lia | exact Hret | exact Hc].
Qed.

Lemma more_retries_keep_a_success_witness :
  retry_with_backoff halves flaky None 9 1 30 ["Exception"] true
  = retry_with_backoff halves flaky None 3 1 30 ["Exception"] true.
Proof.
  assert (Hn : (0 <= 3 <= 9)%Z) by lia.
  assert (Hres : fst (retry_with_backoff halves flaky None 3 1 30
                        ["Exception"] true) = Return (VInt 42))
    by reflexivity.
  exact (more_retries_keep_a_success halves flaky None 3 9 1 30 ["Exception"]
           true (VInt 42) Hn Hres).
Defined.

(** * Further properties of [get_ndaq_tickers] *)

Lemma insert_uniq_length (x : string) (l : list string) :
  (List.length (insert_uniq x l) <= S (List.length l))%nat.
Proof.
  induction l as [|y l IH]; cbn [insert_uniq List.length]; [lia|].
  destruct (String_as_OT.compare x y); cbn [List.length]; lia.
Qed.

Lemma sorted_set_length (l : list string) :
  (List.length (sorted_set l) <= List.length l)%nat.
Proof.
  induction l as [|x l IH]; cbn [sorted_set fold_right List.length]; [lia|].
  fold (sorted_set l).
  pose proof (insert_uniq_length x (sorted_set l)). lia.
Qed.

(** Two strictly increasing lists with the same elements are equal. *)
Lemma Sorted_lt_unique (l1 l2 : list string) :
  Sorted String_as_OT.lt l1 -> Sorted String_as_OT.lt l2 ->
  (forall x, In x l1 <-> In x l2) ->
  l1 = l2.
Proof.
  intros H1 H2.
  apply Sorted_StronglySorted in H1;
    [|intros x y z; apply String_as_OT.lt_strorder].
  apply Sorted_StronglySorted in H2;
    [|intros x y z; apply String_as_OT.lt_strorder].
  revert l2 H2. induction H1 as [|a l1 Hs1 IH Hall1]; intros l2 H2 Hin.
  - destruct l2 as [|b l2]; [reflexivity|].
    exfalso. apply (proj2 (Hin b)). left. reflexivity.
  - destruct H2 as [|b l2 Hs2 Hall2].
    + exfalso. apply (proj1 (Hin a)). left. reflexivity.
    + rewrite Forall_forall in Hall1, Hall2.
      assert (Hab : a = b).
      { destruct (proj1 (Hin a) (or_introl eq_refl)) as [Hba|Ha2];
          [symmetry; exact Hba|].
        destruct (proj2 (Hin b) (or_introl eq_refl)) as [Hab|Hb1];
          [exact Hab|].
        exfalso.
        pose proof (Hall2 a Ha2) as Hlt1. pose proof (Hall1 b Hb1) as Hlt2.
        apply (StrictOrder_Irreflexive (R := String_as_OT.lt) a).
        transitivity b; assumption. }
      subst b. f_equal. apply IH; [exact Hs2|].
      intros x. split; intros Hx.
      * destruct (proj1 (Hin x) (or_intror Hx)) as [Hax|Hx2]; [|exact Hx2].
        subst x. exfalso.
        apply (StrictOrder_Irreflexive (R := String_as_OT.lt) a).
        apply Hall1. exact Hx.
      * destruct (proj2 (Hin x) (or_intror Hx)) as [Hax|Hx1]; [|exact Hx1].
        subst x. exfalso.
        apply (StrictOrder_Irreflexive (R := String_as_OT.lt) a).
        apply Hall2. exact Hx.
Qed.

(** What the tests on a cell amount to. *)
Lemma upper_is_not_lower (c : ascii) :
  is_upper_char c = true -> is_lower_char c = false.
Proof.
  unfold is_upper_char, is_lower_char. intros H.
  apply andb_true_iff in H. destruct H as [_ H]. apply Nat.leb_le in H.
  apply andb_false_iff. left. apply Nat.leb_gt. lia.
Qed.

Lemma letters_without_lowercase (l : list ascii) :
  forallb (fun c => negb (is_lower_char c)) l
  && forallb (fun c => is_upper_char c || is_lower_char c) l
  = forallb is_upper_char l.
Proof.
  induction l as [|c l IH]; [reflexivity|]. cbn [forallb]. rewrite <- IH.
  destruct (is_upper_char c) eqn:Hu.
  - rewrite (upper_is_not_lower c Hu). cbn.
    destruct (forallb (fun c => negb (is_lower_char c)) l); reflexivity.
  - destruct (is_lower_char c); cbn; [reflexivity|].
    rewrite andb_false_r. reflexivity.
Qed.

Lemma capitals_have_a_capital (l : list ascii) :
  l <> [] -> forallb is_upper_char l = true -> existsb is_upper_char l = true.
Proof.
  destruct l as [|c l]; [congruence|]. cbn. intros _ H.
  apply andb_true_iff in H. destruct H as [-> _]. reflexivity.
Qed.

Lemma string_nonempty_length (text : string) :
  negb (text =? "") = (1 <=? String.length text)%nat.
Proof. destruct text; reflexivity. Qed.

Lemma isupper_isalpha_capitals (text : string) :
  isupper text && isalpha text
  = negb (text =? "") && forallb is_upper_char (list_ascii_of_string text).
Proof.
  unfold isupper, isalpha.
  destruct text as [|c text]; [reflexivity|].
  cbn [String.eqb negb andb].
  set (l := list_ascii_of_string (String c text)).
  rewrite <- (letters_without_lowercase l).
  destruct (forallb (fun c => negb (is_lower_char c)) l) eqn:Hlow;
    destruct (forallb (fun c => is_upper_char c || is_lower_char c) l) eqn:Hal;
    rewrite ?andb_false_r; cbn [andb]; try reflexivity.
  rewrite !andb_true_r. apply capitals_have_a_capital.
  - subst l. discriminate.
  - rewrite <- (letters_without_lowercase l), Hlow, Hal. reflexivity.
Qed.

(** On the ASCII texts of this model the four tests say: one to five
    capital letters. *)
Lemma keep_cell_shape (text : string) :
  keep_cell text = ticker_shaped text && negb (text =? "NAME").
Proof.
  unfold keep_cell, ticker_shaped.
  rewrite <- (andb_assoc (negb (text =? "")
                          && (String.length text <=? 5)%nat)
                (isupper text) (isalpha text)).
  rewrite isupper_isalpha_capitals, string_nonempty_length.
  destruct (1 <=? String.length text)%nat;
    destruct (String.length text <=? 5)%nat eqn:Hlen;
    destruct (forallb is_upper_char (list_ascii_of_string text));
    cbn [andb]; try reflexivity.
  apply Nat.leb_le in Hlen. f_equal.
  unfold not_tickers. cbn [existsb].
  assert (Hlong : forall word, (5 < String.length word)%nat ->
                               (text =? word) = false).
  { intros word Hword. apply String.eqb_neq. intros ->. lia. }
  rewrite (Hlong "TICKER"), (Hlong "SYMBOL"), (Hlong "COMPANY"),
    (Hlong "WEIGHT") by (cbn; lia).
  cbn [orb]. rewrite orb_false_r. reflexivity.
Qed.

Lemma not_excluded (t : string) :
  negb (existsb (String.eqb t) not_tickers) = true -> ~ In t not_tickers.
Proof.
  intros Hnot Hin. apply negb_true_iff in Hnot.
  assert (Hex : existsb (String.eqb t) not_tickers = true).
  { apply existsb_exists. exists t. split; [exact Hin | apply String.eqb_refl]. }
  congruence.
Qed.

Lemma kept_cell_passes_the_tests (t : string) :
  keep_cell t = true ->
  (1 <= String.length t <= 5)%nat /\
  isupper t = true /\ isalpha t = true /\
  ~ In t not_tickers.
Proof.
  unfold keep_cell. intros H.
  apply andb_true_iff in H. destruct H as [H Hnot].
  apply andb_true_iff in H. destruct H as [H Halpha].
  apply andb_true_iff in H. destruct H as [H Hupper].
  apply andb_true_iff in H. destruct H as [Hne Hlen].
  rewrite string_nonempty_length in Hne.
  apply Nat.leb_le in Hne. apply Nat.leb_le in Hlen.
  repeat split; try assumption. apply not_excluded. exact Hnot.
Qed.

Lemma fallback_listed : listed get_ndaq_tickers_fallback.
Proof.
  split; [rewrite fallback_length; lia|]. split.
  - apply (NoDup_incl_NoDup (l := sorted_set get_ndaq_tickers_fallback)).
    + apply Sorted_lt_NoDup, sorted_set_Sorted.
    + apply Nat.leb_le. vm_compute. reflexivity.
    + intros x Hx. apply sorted_set_In. exact Hx.
  - assert (Hall : forallb keep_cell get_ndaq_tickers_fallback = true)
      by (vm_compute; reflexivity).
    rewrite forallb_forall in Hall. intros t Ht.
    apply kept_cell_passes_the_tests. apply Hall. exact Ht.
Qed.

Lemma scraped_listed (tables : list table) :
  (80 <= List.length (sorted_set (collect_tickers tables)) <= 120)%nat ->
  listed (sorted_set (collect_tickers tables)).
Proof.
  intros Hlen. split; [exact Hlen|]. split.
  - apply Sorted_lt_NoDup, sorted_set_Sorted.
  - intros t Ht. apply sorted_set_In, collect_tickers_In in Ht.
    destruct Ht as (tb & r & _ & _ & _ & Hkeep).
    apply kept_cell_passes_the_tests. exact Hkeep.
Qed.

Lemma returned_listed (page : pyresult (list table)) (l : list string) :
  fst (get_ndaq_tickers page) = Return l -> listed l.
Proof.
  destruct page as [tables|e]; cbn [get_ndaq_tickers].
  - destruct (Nat.leb_spec 80 (List.length (sorted_set (collect_tickers tables))))
      as [Hlo|Hlo];
      destruct (Nat.leb_spec (List.length (sorted_set (collect_tickers tables))) 120)
        as [Hhi|Hhi];
      cbn [andb fst]; intros Hres; injection Hres as <-;
      try apply fallback_listed.
    apply scraped_listed. lia.
  - destruct (isinstance e ["Exception"]); cbn [fst]; intros Hres;
      [injection Hres as <-; apply fallback_listed | discriminate Hres].
Qed.

(** X12. Whenever [get_ndaq_tickers] returns, from the page or from the
    hardcoded list, the list has between 80 and 120 entries. *)
Theorem returned_list_has_80_to_120_tickers
    (page : pyresult (list table)) (l : list string) :
  fst (get_ndaq_tickers page) = Return l ->
  (80 <= List.length l <= 120)%nat.
Proof. intros Hres. apply (returned_listed page l Hres). Qed.

Lemma returned_list_has_80_to_120_tickers_witness :
  (80 <= List.length get_ndaq_tickers_fallback <= 120)%nat.
Proof.
  assert (Hres : fst (get_ndaq_tickers (Return [])) =
                 Return get_ndaq_tickers_fallback) by reflexivity.
  exact (returned_list_has_80_to_120_tickers (Return [])
           get_ndaq_tickers_fallback Hres).
Defined.

(** X13. Every ticker that [get_ndaq_tickers] returns, from the page or
    from the hardcoded list, passes the tests of the scan: it has one to
    five characters, [isupper] and [isalpha] hold of it, and it is none of
    the excluded header words. *)
Theorem returned_tickers_are_well_formed
    (page : pyresult (list table)) (l : list string) (t : string) :
  fst (get_ndaq_tickers page) = Return l ->
  In t l ->
  (1 <= String.length t <= 5)%nat /\
  isupper t = true /\ isalpha t = true /\
  ~ In t not_tickers.
Proof. intros Hres. apply (returned_listed page l Hres). Qed.

Lemma returned_tickers_are_well_formed_witness :
  (1 <= String.length "AAPL" <= 5)%nat /\
  isupper "AAPL" = true /\ isalpha "AAPL" = true /\
  ~ In "AAPL" not_tickers.
Proof.
  assert (Hres : fst (get_ndaq_tickers (Raise boom)) =
                 Return get_ndaq_tickers_fallback) by reflexivity.
  assert (Hin : In "AAPL" get_ndaq_tickers_fallback)
    by (left; reflexivity).
  exact (returned_tickers_are_well_formed (Raise boom)
           get_ndaq_tickers_fallback "AAPL" Hres Hin).
Defined.

(** X14. No ticker occurs twice in a list returned by [get_ndaq_tickers]. *)
Theorem returned_list_has_no_duplicates
    (page : pyresult (list table)) (l : list string) :
  fst (get_ndaq_tickers page) = Return l -> NoDup l.
Proof. intros Hres. apply (returned_listed page l Hres). Qed.

Lemma returned_list_has_no_duplicates_witness :
  NoDup get_ndaq_tickers_fallback.
Proof.
  assert (Hres : fst (get_ndaq_tickers (Return [])) =
                 Return get_ndaq_tickers_fallback) by reflexivity.
  exact (returned_list_has_no_duplicates (Return [])
           get_ndaq_tickers_fallback Hres).
Defined.

(** X15. Of the five excluded words only "NAME" is ever excluded by the
    list: the other four have more than five characters, so the length test
    has already dropped them. A cell is kept exactly when it passes the
    four tests and is not "NAME". *)
Theorem only_NAME_is_excluded_by_the_list (text : string) :
  keep_cell text =
  (negb (text =? "") && (String.length text <=? 5)%nat
   && isupper text && isalpha text)
  && negb (text =? "NAME").
Proof.
  unfold keep_cell.
  destruct (String.length text <=? 5)%nat eqn:Hlen.
  - apply Nat.leb_le in Hlen. f_equal. f_equal.
    unfold not_tickers. cbn [existsb].
    assert (Hlong : forall word, (5 < String.length word)%nat ->
                                 (text =? word) = false).
    { intros word Hword. apply String.eqb_neq. intros ->. lia. }
    rewrite (Hlong "TICKER"), (Hlong "SYMBOL"), (Hlong "COMPANY"),
      (Hlong "WEIGHT") by (cbn; lia).
    cbn [orb]. rewrite orb_false_r. reflexivity.
  - rewrite andb_false_r. reflexivity.
Qed.

(** X16. The result depends only on which texts are kept, not on where or
    how often they occur on the page: two pages whose kept cells are the
    same as sets give the same list and print the same line. *)
Theorem tickers_depend_only_on_the_set_of_kept_cells
    (tables1 tables2 : list table) :
  (forall x, In x (collect_tickers tables1) <-> In x (collect_tickers tables2)) ->
  get_ndaq_tickers (Return tables1) = get_ndaq_tickers (Return tables2).
Proof.
  intros Hsame.
  assert (Heq : sorted_set (collect_tickers tables1)
                = sorted_set (collect_tickers tables2)).
  { apply Sorted_lt_unique; try apply sorted_set_Sorted.
    intros x. rewrite !sorted_set_In. apply Hsame. }
  cbn [get_ndaq_tickers]. rewrite Heq. reflexivity.
Qed.

Lemma tickers_depend_only_on_the_set_of_kept_cells_witness :
  get_ndaq_tickers (Return [[["MSFT"; "Microsoft"; "AAPL"]]])
  = get_ndaq_tickers (Return [[["AAPL"]]; [["Apple"]; ["MSFT"; "AAPL"]]]).
Proof.
  assert (Hsame : forall x,
            In x (collect_tickers [[["MSFT"; "Microsoft"; "AAPL"]]]) <->
            In x (collect_tickers [[["AAPL"]]; [["Apple"]; ["MSFT"; "AAPL"]]]))
    by (intros x;
        change (In x ["MSFT"; "AAPL"] <-> In x ["AAPL"; "MSFT"; "AAPL"]);
        cbn [In]; tauto).
  exact (tickers_depend_only_on_the_set_of_kept_cells _ _ Hsame).
Defined.

(** X17. A page on which fewer than 80 cells pass the filter, in particular
    a page without any table, always gives the hardcoded list. *)
Theorem few_kept_cells_give_the_fallback (tables : list table) :
  (List.length (collect_tickers tables) < 80)%nat ->
  fst (get_ndaq_tickers (Return tables)) = Return get_ndaq_tickers_fallback.
Proof.
  intros Hfew. cbn [get_ndaq_tickers].
  pose proof (sorted_set_length (collect_tickers tables)) as Hlen.
  destruct (Nat.leb_spec 80 (List.length (sorted_set (collect_tickers tables))))
    as [Hlo|Hlo]; [lia|].
  reflexivity.
Qed.

Lemma few_kept_cells_give_the_fallback_witness :
  fst (get_ndaq_tickers (Return [])) = Return get_ndaq_tickers_fallback.
Proof.
  assert (Hfew : (List.length (collect_tickers []) < 80)%nat) by (cbn; lia).
  exact (few_kept_cells_give_the_fallback [] Hfew).
Defined.
